(** * Localkit: the session layer of monaca-lib (src/localkit.js)

    A shallow embedding of the project registry, the per-project watch
    lifecycle, the discovery beacon step, the pairing-key store and the two
    file-serving helpers (tree filtering and the containment guard), with
    the properties the specification states about them.

    Conventions.
    - JavaScript strings are [string]; [indexOf] answers in [Z] because the
      source tests its result against [0] and [-1].
    - A JavaScript object used as a dictionary is a [gmap string _].
      [Object.keys] enumerates it through [map_to_list]; the source never
      depends on the enumeration order beyond the order of a returned list.
    - A promise is described by how it settles: [Resolved], [Rejected] or
      [Pending] (never settled).
    - Everything outside the file (the identity service, the file system,
      the watch primitive, the network) is gathered in one record [World]. *)

From Stdlib Require Import Ascii ZArith.
From stdpp Require Import gmap strings list fin_maps.

Local Open Scope Z_scope.

(** ** JavaScript strings *)

Module JS.

Definition slash : ascii := "/"%char.

(** [hay.substr(0, needle.length) === needle] *)
Fixpoint startsWith (needle hay : string) : bool :=
  match needle, hay with
  | EmptyString, _ => true
  | String a n', String b h' => bool_decide (a = b) && startsWith n' h'
  | String _ _, EmptyString => false
  end.

(** [hay.indexOf(needle)], searching from position [i] of the original
    string; [-1] when there is no occurrence. *)
Fixpoint indexOf_from (needle hay : string) (i : Z) : Z :=
  if startsWith needle hay then i
  else match hay with
       | EmptyString => -1
       | String _ h' => indexOf_from needle h' (i + 1)
       end.

Definition indexOf (hay needle : string) : Z := indexOf_from needle hay 0.

(** [hay.includes(needle)], used to state what [indexOf] finds. *)
Fixpoint includes (needle hay : string) : bool :=
  startsWith needle hay
  || match hay with
     | EmptyString => false
     | String _ h' => includes needle h'
     end.

(** [s.charAt(0) === c] *)
Definition charAt0_is (c : ascii) (s : string) : bool :=
  match s with
  | String a _ => bool_decide (a = c)
  | EmptyString => false
  end.

(** [s.substr(1)] *)
Definition substr1 (s : string) : string :=
  match s with
  | String _ r => r
  | EmptyString => EmptyString
  end.

(** [s.split('/')] *)
Fixpoint split_slash (s : string) : list string :=
  match s with
  | EmptyString => [EmptyString]
  | String c r =>
      let parts := split_slash r in
      if bool_decide (c = slash) then EmptyString :: parts
      else match parts with
           | h :: t => String c h :: t
           | [] => [String c EmptyString]
           end
  end.

(** [parts.join('/')] *)
Fixpoint join_slash (parts : list string) : string :=
  match parts with
  | [] => EmptyString
  | [p] => p
  | p :: rest => p +:+ String slash (join_slash rest)
  end.

(** The character class [[^/]*] followed by the end of the input. *)
Fixpoint no_slash (s : string) : bool :=
  match s with
  | EmptyString => true
  | String c r => negb (bool_decide (c = slash)) && no_slash r
  end.

End JS.

(** ** Project file-tree filtering ([getProjectFiles], the inner [fileFilter]) *)

(** The regular expression [/^\/(www\/|[^/]*$)/]: a leading slash, then
    either the literal [www/] or a slash-free remainder up to the end. *)
Definition re_www_or_bare (fn : string) : bool :=
  match fn with
  | String c rest =>
      bool_decide (c = JS.slash)
      && (JS.startsWith "www/" rest || JS.no_slash rest)
  | EmptyString => false
  end.

Definition fileFilter (fn : string) : bool :=
  if bool_decide (0 <= JS.indexOf fn "/.") then false
  else re_www_or_bare fn.

(** ** Node's [path] module, POSIX flavour

    [path] is part of the runtime, not of the repository.  The definitions
    follow the algorithm of the runtime the library was written for: split
    on the separator, drop empty segments, resolve [.] and [..] from the
    right with a counter, and join again. *)

Module Path.

Definition nonempty (s : string) : bool :=
  match s with EmptyString => false | String _ _ => true end.

(** The backward loop of [normalizeArray]: the recursive call handles the
    segments to the right first and hands back the surviving ones together
    with [up], the number of [..] still waiting for a segment to cancel. *)
Fixpoint normalizeArray_scan (parts : list string) : list string * nat :=
  match parts with
  | [] => ([], 0%nat)
  | last :: before =>
      let '(kept, up) := normalizeArray_scan before in
      if bool_decide (last = ".") then (kept, up)
      else if bool_decide (last = "..") then (kept, S up)
      else match up with
           | S up' => (kept, up')
           | O => (last :: kept, O)
           end
  end.

Definition normalizeArray (parts : list string) (allowAboveRoot : bool)
  : list string :=
  let '(kept, up) := normalizeArray_scan parts in
  if allowAboveRoot then replicate up ".." ++ kept else kept.

Definition isAbsolute (p : string) : bool := JS.charAt0_is JS.slash p.

Fixpoint endsWithSlash (p : string) : bool :=
  match p with
  | EmptyString => false
  | String c EmptyString => bool_decide (c = JS.slash)
  | String _ r => endsWithSlash r
  end.

(** [path.split('/')] without its empty entries. *)
Definition segments (p : string) : list string :=
  List.filter nonempty (JS.split_slash p).

Definition normalize (p : string) : string :=
  let isAbs := isAbsolute p in
  let trailingSlash := endsWithSlash p in
  let p1 := JS.join_slash (normalizeArray (segments p) (negb isAbs)) in
  let p2 := if negb (nonempty p1) && negb isAbs then "." else p1 in
  let p3 := if nonempty p2 && trailingSlash then p2 +:+ "/" else p2 in
  (if isAbs then "/" else "") +:+ p3.

Definition join (paths : list string) : string :=
  normalize (JS.join_slash (List.filter nonempty paths)).

(** The loop of [resolve], from the last argument towards the first and
    finally the working directory, until an absolute path was met. *)
Fixpoint resolve_loop (args_rev : list string) (resolvedPath : string)
    (resolvedAbsolute : bool) : string * bool :=
  if resolvedAbsolute then (resolvedPath, resolvedAbsolute)
  else match args_rev with
       | [] => (resolvedPath, resolvedAbsolute)
       | p :: rest =>
           if nonempty p
           then resolve_loop rest (p +:+ "/" +:+ resolvedPath) (isAbsolute p)
           else resolve_loop rest resolvedPath resolvedAbsolute
       end.

Definition resolve (cwd : string) (args : list string) : string :=
  let '(resolvedPath, resolvedAbsolute) :=
    resolve_loop (rev args ++ [cwd]) "" false in
  let body :=
    JS.join_slash (normalizeArray (segments resolvedPath)
                                  (negb resolvedAbsolute)) in
  let r := (if resolvedAbsolute then "/" else "") +:+ body in
  if nonempty r then r else ".".

End Path.

(** ** Promises and the surrounding world *)

Definition error := string.

Inductive promise (A : Type) : Type :=
| Resolved (a : A)
| Rejected (e : error)
| Pending.
Arguments Resolved {A} a.
Arguments Rejected {A} e.
Arguments Pending {A}.

Definition is_rejected {A} (p : promise A) : bool :=
  match p with Rejected _ => true | _ => false end.

Definition is_resolved {A} (p : promise A) : bool :=
  match p with Resolved _ => true | _ => false end.

Definition promise_map {A B} (f : A -> B) (p : promise A) : promise B :=
  match p with
  | Resolved a => Resolved (f a)
  | Rejected e => Rejected e
  | Pending => Pending
  end.

(** [Q.all]: rejected with the reason of the first rejected member,
    resolved with all values when every member resolved, and otherwise
    never settled. *)
Fixpoint first_rejection {A} (ps : list (promise A)) : option error :=
  match ps with
  | [] => None
  | Rejected e :: _ => Some e
  | _ :: rest => first_rejection rest
  end.

Fixpoint all_values {A} (ps : list (promise A)) : option (list A) :=
  match ps with
  | [] => Some []
  | Resolved a :: rest => cons a <$> all_values rest
  | _ :: _ => None
  end.

Definition Q_all {A} (ps : list (promise A)) : promise (list A) :=
  match first_rejection ps with
  | Some e => Rejected e
  | None => match all_values ps with
            | Some vs => Resolved vs
            | None => Pending
            end
  end.

(** Modelled from the spec: the filesystem watch primitive
    (localkit/fileWatcher.js is not among the sources).  The spec gives a
    watcher two states, running or idle, and lets starting and stopping
    fail; which calls fail is left to the world ([watch_run], [watch_stop]).
    A call that throws leaves the watcher as it was. *)
Record FileWatcher := mkFileWatcher {
  running : bool;
  watched : option string;
  onchange : option string
}.

Record LoginBody := mkLoginBody {
  serverName : string;
  clientId : string;
  userId : string
}.

Record Config := mkConfig {
  config_type : string;
  config_version : string;
  beacon_send_port : Z;
  beacon_send_interval : Z;
  http_server_port : Z
}.

(** What becomes of the datagram for one broadcast address: it goes out;
    the send reports an error to its callback; or [setBroadcast] or [send]
    throws inside the [listening] handler. *)
Inductive send_outcome :=
| SendOk
| SendError (e : error)
| SendThrows (e : error).

Record World := mkWorld {
  cwd : string;
  home : string;
  config : Config;
  os_platform : string;
  sha1_hex : string -> string;
  (* the identity collaborator *)
  getLocalProjectId : string -> promise string;
  loginBody : option LoginBody;
  (* the file system *)
  fs_exists : string -> bool;
  fs_isDirectory : string -> bool;
  fs_readFile : string -> error + string;
  fs_writeFile : string -> string -> option (error * option string);
  (* the watch primitive: [Some e] when the call throws [e] *)
  watch_run : FileWatcher -> string -> option error;
  watch_stop : FileWatcher -> option error;
  (* the network-interface collaborator *)
  broadcastAddresses : list string;
  (* the datagram sockets, per destination address *)
  udp_send : string -> send_outcome
}.

(** ** The Localkit object *)

Record Project := mkProject {
  fileWatcher : FileWatcher;
  path : string
}.

(** [this.server]: absent until the HTTP server was created; [address()]
    answers [null] while the server is not listening. *)
Record Server := mkServer {
  address : option Z
}.

Record Localkit := mkLocalkit {
  projects : gmap string Project;
  _isWatching : bool;
  pairingKeys : gmap string string;
  beaconTransmitterRunning : bool;
  httpServerRunning : bool;
  server : option Server;
  _interval : option nat
}.

Definition set_projects (ps : gmap string Project) (s : Localkit) : Localkit :=
  mkLocalkit ps (_isWatching s) (pairingKeys s) (beaconTransmitterRunning s)
             (httpServerRunning s) (server s) (_interval s).

Definition set_isWatching (b : bool) (s : Localkit) : Localkit :=
  mkLocalkit (projects s) b (pairingKeys s) (beaconTransmitterRunning s)
             (httpServerRunning s) (server s) (_interval s).

Definition set_pairingKeys (m : gmap string string) (s : Localkit) : Localkit :=
  mkLocalkit (projects s) (_isWatching s) m (beaconTransmitterRunning s)
             (httpServerRunning s) (server s) (_interval s).

(** The state the constructor leaves behind. *)
Definition Localkit_new : Localkit :=
  mkLocalkit ∅ false ∅ false false None None.

Definition Object_keys {V} (o : gmap string V) : list string :=
  (map_to_list o).*1.

Definition isWatching (s : Localkit) : bool := _isWatching s.

Definition dquote : string := String (ascii_of_nat 34) EmptyString.

Definition FileWatcher_new : FileWatcher := mkFileWatcher false None None.

Definition FileWatcher_onchange (tag : string) (w : FileWatcher) : FileWatcher :=
  mkFileWatcher (running w) (watched w) (Some tag).

Definition FileWatcher_isRunning (w : FileWatcher) : bool := running w.

Section Operations.

Variable W : World.

(** Modelled from the spec: [run] and [stop] of the watch primitive (see
    [FileWatcher]); [inl e] stands for the exception [e]. *)
Definition FileWatcher_run (w : FileWatcher) (dir : string)
  : error + FileWatcher :=
  match watch_run W w dir with
  | Some e => inl e
  | None => inr (mkFileWatcher true (Some dir) (onchange w))
  end.

Definition FileWatcher_stop (w : FileWatcher) : error + FileWatcher :=
  match watch_stop W w with
  | Some e => inl e
  | None => inr (mkFileWatcher false (watched w) (onchange w))
  end.

Definition set_fileWatcher (w : FileWatcher) (p : Project) : Project :=
  mkProject w (path p).

(** *** [addProject] *)

Definition MissingContentRoot (projectPath : string) : error :=
  projectPath +:+ " does not have a " +:+ dquote +:+ "www" +:+ dquote
              +:+ " directory.".

Definition addProject (s : Localkit) (projectPath : string)
  : promise string * Localkit :=
  match getLocalProjectId W projectPath with
  | Rejected e => (Rejected e, s)
  | Pending => (Pending, s)
  | Resolved projectId =>
      if negb (fs_exists W (Path.join [projectPath; "www"]))
      then (Rejected (MissingContentRoot projectPath), s)
      else if bool_decide (is_Some (projects s !! projectId))
      then (Resolved projectId, s)
      else
        let fileWatcher := FileWatcher_onchange projectId FileWatcher_new in
        let started :=
          if isWatching s
          then FileWatcher_run fileWatcher (Path.join [projectPath; "www"])
          else inr fileWatcher in
        match started with
        | inl e => (Rejected e, s)
        | inr fw =>
            (Resolved projectId,
             set_projects (<[projectId := mkProject fw projectPath]> (projects s)) s)
        end
  end.

(** *** [removeProject]

    When the id is not registered the source has no branch at all: the
    deferred is neither resolved nor rejected. *)
Definition removeProject (s : Localkit) (projectPath : string)
  : promise string * Localkit :=
  match getLocalProjectId W projectPath with
  | Rejected e => (Rejected e, s)
  | Pending => (Pending, s)
  | Resolved projectId =>
      match projects s !! projectId with
      | Some project =>
          match FileWatcher_stop (fileWatcher project) with
          | inl e => (Rejected e, s)
          | inr _ =>
              (Resolved projectId, set_projects (delete projectId (projects s)) s)
          end
      | None => (Pending, s)
      end
  end.

(** *** [startWatch] *)

Definition idle_in (ps : gmap string Project) (projectId : string) : bool :=
  match ps !! projectId with
  | Some p => negb (FileWatcher_isRunning (fileWatcher p))
  | None => false
  end.

Definition running_in (ps : gmap string Project) (projectId : string) : bool :=
  match ps !! projectId with
  | Some p => FileWatcher_isRunning (fileWatcher p)
  | None => false
  end.

(** One turn of the [for] loop: the registry and the [paths] array so far. *)
Definition startWatch_step (acc : gmap string Project * list string)
    (projectId : string) : gmap string Project * list string :=
  let '(ps, paths) := acc in
  match ps !! projectId with
  | None => (ps, paths)
  | Some project =>
      let watchDir := Path.join [path project; "www"] in
      match FileWatcher_run (fileWatcher project) watchDir with
      | inr fw => (<[projectId := set_fileWatcher fw project]> ps, paths ++ [watchDir])
      | inl _ => (ps, paths)
      end
  end.

Definition startWatch (s : Localkit) : promise (list string) * Localkit :=
  let projectIds :=
    List.filter (idle_in (projects s)) (Object_keys (projects s)) in
  let '(ps, paths) := foldl startWatch_step (projects s, []) projectIds in
  (Resolved paths, set_isWatching false (set_projects ps s)).

(** *** [stopWatch] *)

Definition stopWatch_step (acc : gmap string Project * list (promise string))
    (projectId : string) : gmap string Project * list (promise string) :=
  let '(ps, promises) := acc in
  match ps !! projectId with
  | None => (ps, promises)
  | Some project =>
      match FileWatcher_stop (fileWatcher project) with
      | inr fw => (<[projectId := set_fileWatcher fw project]> ps,
                   promises ++ [Resolved (path project)])
      | inl e => (ps, promises ++ [Rejected e])
      end
  end.

Definition stopWatch (s : Localkit) : promise (list string) * Localkit :=
  let projectIds :=
    List.filter (running_in (projects s)) (Object_keys (projects s)) in
  let '(ps, promises) := foldl stopWatch_step (projects s, []) projectIds in
  match Q_all promises with
  | Resolved projectPaths =>
      (Resolved projectPaths, set_isWatching false (set_projects ps s))
  | Rejected e => (Rejected e, set_projects ps s)
  | Pending => (Pending, set_projects ps s)
  end.

(** *** [setProjects]

    Both loops of the source run inside one callback, before any of the
    operations they start has touched the registry, so the two tests
    ([!this.projects[id]] and [pathList.indexOf(path) < 0]) read the registry
    as it is when the ids arrive.  The started operations then take effect
    one after the other, in the order in which they were started. *)

Inductive registry_op :=
| OpAdd (projectPath : string)
| OpRemove (projectPath : string).

Definition run_op (s : Localkit) (o : registry_op) : promise string * Localkit :=
  match o with
  | OpAdd p => addProject s p
  | OpRemove p => removeProject s p
  end.

Fixpoint run_ops (s : Localkit) (ops : list registry_op)
  : list (promise string) * Localkit :=
  match ops with
  | [] => ([], s)
  | o :: rest =>
      let '(r, s1) := run_op s o in
      let '(rs, s2) := run_ops s1 rest in
      (r :: rs, s2)
  end.

Definition getProjects_ids (pathList : list string)
  : promise (list (string * string)) :=
  Q_all (map (fun p => promise_map (fun projectId => (p, projectId))
                                   (getLocalProjectId W p)) pathList).

Definition setProjects_ops (s : Localkit) (pathList : list string)
    (resolved : list (string * string)) : list registry_op :=
  map (fun pi => OpAdd pi.1)
      (List.filter (fun pi => bool_decide (projects s !! pi.2 = None)) resolved)
  ++ map (fun kv => OpRemove (path kv.2))
      (List.filter (fun kv => bool_decide (path kv.2 ∉ pathList))
                   (map_to_list (projects s))).

Definition setProjects (s : Localkit) (pathList : list string)
  : promise (list string) * Localkit :=
  match getProjects_ids pathList with
  | Rejected e => (Rejected e, s)
  | Pending => (Pending, s)
  | Resolved resolved =>
      let '(promises, s') := run_ops s (setProjects_ops s pathList resolved) in
      (Q_all promises, s')
  end.

(** *** [getProjectFiles] *)

Definition NoProjectWithId (projectId : string) : error :=
  "No project with id: " +:+ projectId.

(** The loop copying the filtered names into [tmp]. *)
Definition copy_entry {V} (files : gmap string V) (tmp : gmap string V)
    (filename : string) : gmap string V :=
  match files !! filename with
  | Some v => <[filename := v]> tmp
  | None => tmp
  end.

Definition filter_files {V} (files : gmap string V) : gmap string V :=
  foldl (copy_entry files) ∅ (List.filter fileFilter (Object_keys files)).

Definition getProjectFiles {V}
    (getLocalProjectFiles : string -> promise (gmap string V))
    (s : Localkit) (projectId : string) : promise (gmap string V) :=
  match projects s !! projectId with
  | Some project =>
      match getLocalProjectFiles (path project) with
      | Resolved files => Resolved (filter_files files)
      | Rejected e => Rejected e
      | Pending => Pending
      end
  | None => Rejected (NoProjectWithId projectId)
  end.

(** *** [readProjectFile]

    Besides the way the promise settles, the model returns the file-system
    calls that were issued, in order. *)

Inductive fs_call :=
| FsExists (p : string)
| FsLstat (p : string)
| FsReadFile (p : string).

Definition PathTraversal : error := "File is outside of project path.".

(** The test [absoluteFilePath.indexOf(absoluteProjectPath) !== 0]. *)
Definition outside_project (projectPath filePath : string) : bool :=
  let absoluteFilePath := Path.resolve (cwd W) [filePath] in
  let absoluteProjectPath := Path.resolve (cwd W) [projectPath] in
  negb (bool_decide (JS.indexOf absoluteFilePath absoluteProjectPath = 0)).

Definition readProjectFile (s : Localkit) (projectId filePath : string)
  : promise string * list fs_call :=
  match projects s !! projectId with
  | None => (Rejected ("No project width id: " +:+ projectId), [])
  | Some project =>
      let projectPath := path project in
      let origFilePath := filePath in
      let filePath :=
        if JS.charAt0_is JS.slash filePath then JS.substr1 filePath
        else filePath in
      let filePath := Path.join [projectPath; filePath] in
      if outside_project projectPath filePath
      then (Rejected PathTraversal, [])
      else if negb (fs_exists W filePath)
      then (Rejected (origFilePath +:+ " doesn't exist."), [FsExists filePath])
      else if fs_isDirectory W filePath
      then (Rejected (filePath +:+ " is a directory"),
            [FsExists filePath; FsLstat filePath])
      else
        (match fs_readFile W filePath with
         | inl e => Rejected e
         | inr data => Resolved data
         end,
         [FsExists filePath; FsLstat filePath; FsReadFile filePath])
  end.

(** *** [clearPairing]

    The disk is a map from file names to contents.  [fs_writeFile] of the
    world says whether the write fails and, if so, what is left of the
    file. *)

Definition PAIRING_KEYS_FILE : string :=
  Path.join [home W; ".cordova"; "monaca_pairing_keys.json"].

(** [JSON.stringify] on a dictionary of strings.  Quotes and backslashes
    are escaped; control characters are outside this model. *)
Fixpoint JSON_escape (s : string) : string :=
  match s with
  | EmptyString => EmptyString
  | String c r =>
      if bool_decide (c = ascii_of_nat 34) || bool_decide (c = ascii_of_nat 92)
      then String (ascii_of_nat 92) (String c (JSON_escape r))
      else String c (JSON_escape r)
  end.

Definition JSON_quote (s : string) : string :=
  dquote +:+ JSON_escape s +:+ dquote.

Fixpoint join_comma (l : list string) : string :=
  match l with
  | [] => EmptyString
  | [x] => x
  | x :: rest => x +:+ "," +:+ join_comma rest
  end.

Definition JSON_stringify (m : gmap string string) : string :=
  "{" +:+ join_comma (map (fun kv => JSON_quote kv.1 +:+ ":" +:+ JSON_quote kv.2)
                          (map_to_list m)) +:+ "}".

Definition clearPairing (s : Localkit) (disk : gmap string string)
  : promise unit * Localkit * gmap string string :=
  let s1 := set_pairingKeys ∅ s in
  let content := JSON_stringify (pairingKeys s1) in
  match fs_writeFile W PAIRING_KEYS_FILE content with
  | Some (e, remains) =>
      (Rejected e, s1,
       match remains with
       | Some c => <[PAIRING_KEYS_FILE := c]> disk
       | None => delete PAIRING_KEYS_FILE disk
       end)
  | None => (Resolved tt, s1, <[PAIRING_KEYS_FILE := content]> disk)
  end.

(** *** The beacon *)

Record ServerInfo := mkServerInfo {
  info_type : string;
  info_port : Z;
  info_os : string;
  info_name : string;
  info_serverId : string;
  info_userHash : string;
  info_version : string
}.

(** [UdpSend] is a datagram that went out; [SocketClose] is the
    [client.close()] of the send callback. *)
Inductive effect :=
| ConsoleError (msg : string)
| ClearInterval (handle : nat)
| UdpSend (addr : string) (port : Z) (message : ServerInfo)
| ConsoleWarn (e : error)
| SocketClose (addr : string).

Inductive completion := Returns | Throws.

Definition NoPortMessage : string :=
  "Unable to get current port. Please start HTTP server before beacon transmitter.".

(** [this.server.address().port]: a [TypeError] ([None]) when there is no
    server object or when it is not listening. *)
Definition server_port (s : Localkit) : option Z :=
  match server s with
  | Some srv => address srv
  | None => None
  end.

Definition stopBeaconTransmitter (s : Localkit) : Localkit * list effect :=
  match _interval s with
  | Some h =>
      (mkLocalkit (projects s) (_isWatching s) (pairingKeys s) false
                  (httpServerRunning s) (server s) None,
       [ClearInterval h])
  | None => (s, [])
  end.

(** The fields of the object literal are evaluated in order; the port comes
    before the first use of [loginBody]. *)
Definition _getServerInfo (s : Localkit) : option ServerInfo :=
  match server_port s with
  | None => None
  | Some port =>
      match loginBody W with
      | None => None
      | Some lb =>
          Some (mkServerInfo (config_type (config W)) port (os_platform W)
                             (serverName lb) (clientId lb)
                             (sha1_hex W (userId lb))
                             (config_version (config W)))
      end
  end.

(** The inner [sendBroadcast]: one socket per address.  Creating and
    binding the socket is the runtime's affair; what the source handles is
    what happens in the [listening] handler: an exception is caught and
    logged (and the socket left open), an error handed to the send callback
    is logged, and the callback closes the socket either way. *)
Definition sendBroadcast (message : ServerInfo) (address : string)
  : list effect :=
  match udp_send W address with
  | SendOk =>
      [UdpSend address (beacon_send_port (config W)) message;
       SocketClose address]
  | SendError e => [ConsoleWarn e; SocketClose address]
  | SendThrows e => [ConsoleWarn e]
  end.

(** The trace of one step lists what is logged at once, then the effects of
    the sockets grouped by address, in the order in which the loop creates
    them; their handlers run later, from the event loop. *)
Definition _sendBeacon (s : Localkit) : completion * Localkit * list effect :=
  let '(s1, log) :=
    match server_port s with
    | Some _ => (s, [])
    | None =>
        let '(s', fx) := stopBeaconTransmitter s in
        (s', ConsoleError NoPortMessage :: fx)
    end in
  match _getServerInfo s1 with
  | None => (Throws, s1, log)
  | Some message =>
      (Returns, s1,
       log ++ concat (map (sendBroadcast message) (broadcastAddresses W)))
  end.

End Operations.

(** *** [startWatchProject], [stopWatchProject], [isWatchingProject]

    The three methods look a project up by its path: the ids whose entry has
    that path, in enumeration order, and of those the first.  An id that is
    missing or falsy (the empty string) is answered with the same error. *)

Definition NoSuchProject : error := "No such project.".

Definition find_by_path (s : Localkit) (projectDir : string)
  : option (string * Project) :=
  head (List.filter (fun kv => bool_decide (path kv.2 = projectDir))
                    (map_to_list (projects s))).

Definition startWatchProject (W : World) (s : Localkit) (projectDir : string)
  : promise string * Localkit :=
  match find_by_path s projectDir with
  | None => (Rejected NoSuchProject, s)
  | Some (projectId, project) =>
      if bool_decide (projectId = "") then (Rejected NoSuchProject, s)
      else
        let watchDir := Path.join [path project; "www"] in
        if negb (FileWatcher_isRunning (fileWatcher project))
        then match FileWatcher_run W (fileWatcher project) watchDir with
             | inl e => (Rejected e, s)
             | inr fw =>
                 (Resolved watchDir,
                  set_projects
                    (<[projectId := set_fileWatcher fw project]> (projects s)) s)
             end
        else (Resolved watchDir, s)
  end.

Definition stopWatchProject (W : World) (s : Localkit) (projectDir : string)
  : promise string * Localkit :=
  match find_by_path s projectDir with
  | None => (Rejected NoSuchProject, s)
  | Some (projectId, project) =>
      if bool_decide (projectId = "") then (Rejected NoSuchProject, s)
      else
        let watchDir := Path.join [path project; "www"] in
        if FileWatcher_isRunning (fileWatcher project)
        then match FileWatcher_stop W (fileWatcher project) with
             | inl e => (Rejected e, s)
             | inr fw =>
                 (Resolved watchDir,
                  set_projects
                    (<[projectId := set_fileWatcher fw project]> (projects s)) s)
             end
        else (Resolved watchDir, s)
  end.

Definition isWatchingProject (s : Localkit) (projectDir : string)
  : promise bool :=
  match find_by_path s projectDir with
  | None => Rejected NoSuchProject
  | Some (projectId, project) =>
      if bool_decide (projectId = "") then Rejected NoSuchProject
      else if FileWatcher_isRunning (fileWatcher project)
      then Resolved true else Resolved false
  end.

(** The states the object can be in: the constructor's state, closed under
    every method that changes the registry or the watch flag.  The pairing
    keys are also written from outside (the constructor's deferred load of
    the key file, the gateway storing a key); the remaining methods (HTTP
    server start and stop, starting and stopping the beacon timer) touch
    only the four fields of the last constructor. *)
Inductive reachable (W : World) : Localkit -> Prop :=
| reach_new : reachable W Localkit_new
| reach_addProject s p :
    reachable W s -> reachable W (addProject W s p).2
| reach_removeProject s p :
    reachable W s -> reachable W (removeProject W s p).2
| reach_startWatch s :
    reachable W s -> reachable W (startWatch W s).2
| reach_stopWatch s :
    reachable W s -> reachable W (stopWatch W s).2
| reach_setProjects s pathList :
    reachable W s -> reachable W (setProjects W s pathList).2
| reach_clearPairing s disk :
    reachable W s -> reachable W (clearPairing W s disk).1.2
| reach_sendBeacon s :
    reachable W s -> reachable W (_sendBeacon W s).1.2
| reach_server_timer s beacon http srv timer :
    reachable W s ->
    reachable W (mkLocalkit (projects s) (_isWatching s) (pairingKeys s)
                            beacon http srv timer)
| reach_startWatchProject s projectDir :
    reachable W s -> reachable W (startWatchProject W s projectDir).2
| reach_stopWatchProject s projectDir :
    reachable W s -> reachable W (stopWatchProject W s projectDir).2
| reach_pairingKeys s keys :
    reachable W s -> reachable W (set_pairingKeys keys s).

(** ** The specification's vocabulary *)

(** A path component beginning with a dot. *)
Definition hidden_component (c : string) : bool := JS.startsWith "." c.

(** (a) no hidden component anywhere in the path. *)
Definition spec_no_hidden (p : string) : bool :=
  negb (existsb hidden_component (JS.split_slash p)).

(** (b) under the top-level [www] directory, or no directory component. *)
Definition spec_under_www (p : string) : bool :=
  match JS.split_slash p with
  | top :: _ :: _ => bool_decide (top = "www")
  | _ => false
  end.

Definition spec_bare (p : string) : bool :=
  bool_decide (length (JS.split_slash p) = 1%nat).

Definition spec_keeps (p : string) : bool :=
  spec_no_hidden p && (spec_under_www p || spec_bare p).

(** The path handed to the guard and to the file system. *)
Definition requested (projectPath filePath : string) : string :=
  Path.join [projectPath;
             if JS.charAt0_is JS.slash filePath then JS.substr1 filePath
             else filePath].

(** A component of a canonical path: not empty and free of slashes. *)
Definition clean (c : string) : Prop :=
  Path.nonempty c = true /\ JS.no_slash c = true.

(** Containment of canonical paths: the components of the root are the
    leading components of the file. *)
Definition lies_within (root file : string) : bool :=
  bool_decide (Path.segments root `prefix_of` Path.segments file).

(** What the specification asks of the guard: reject exactly when the
    canonical join leaves the root. *)
Definition spec_outside_project (W : World) (projectPath filePath : string)
  : bool :=
  negb (lies_within (Path.resolve (cwd W) [projectPath])
                    (Path.resolve (cwd W) [filePath])).

(** The per-item outcomes of one [setProjects] call, in the order in which
    the operations were started. *)
Definition setProjects_outcomes (W : World) (s : Localkit)
    (pathList : list string) : list (promise string) :=
  match getProjects_ids W pathList with
  | Resolved resolved => (run_ops W s (setProjects_ops s pathList resolved)).1
  | _ => []
  end.

(** The object after a list of operations has been carried out, each one
    on what its predecessors left, whatever their outcomes. *)
Definition state_after (W : World) (s : Localkit) (ops : list registry_op)
  : Localkit :=
  foldl (fun st o => (run_op W st o).2) s ops.

(** A failure report carries the per-item outcomes when they can be read
    off it. *)
Definition reports_per_item_outcomes : Prop :=
  exists decode : promise (list string) -> list (promise string),
    forall W s pathList,
      is_rejected (setProjects W s pathList).1 = true ->
      decode (setProjects W s pathList).1 = setProjects_outcomes W s pathList.

(** The path has a [www] subdirectory. *)
Definition has_www_directory (W : World) (projectPath : string) : bool :=
  fs_exists W (Path.join [projectPath; "www"])
  && fs_isDirectory W (Path.join [projectPath; "www"]).

(** What [startWatch] does to one project, and the directory it reports. *)
Definition attaches (W : World) (p : Project) : bool :=
  negb (FileWatcher_isRunning (fileWatcher p))
  && bool_decide (watch_run W (fileWatcher p) (Path.join [path p; "www"]) = None).

Definition started (p : Project) : Project :=
  mkProject (mkFileWatcher true (Some (Path.join [path p; "www"]))
                           (onchange (fileWatcher p)))
            (path p).

Definition start_one (W : World) (p : Project) : Project :=
  if attaches W p then started p else p.

Definition attached_dir (W : World) (p : Project) : option string :=
  if attaches W p then Some (Path.join [path p; "www"]) else None.

(** ** A small concrete world *)

Definition demo_id (p : string) : promise string :=
  if bool_decide (p = "/tmp/app") then Resolved "P1"
  else if bool_decide (p = "/tmp/lib") then Resolved "P2"
  else if bool_decide (p = "/tmp/nowww") then Resolved "P3"
  else if bool_decide (p = "/tmp/empty") then Resolved "P4"
  else if bool_decide (p = "/tmp/offline") then Rejected "identity service unavailable"
  else Resolved ("id:" +:+ p).

Definition demo_files : list string :=
  ["/tmp/app/www"; "/tmp/lib/www"; "/tmp/app/www/index.html";
   "/tmp/app/index.html"; "/tmp/app2/secret"].

Definition demo_config : Config := mkConfig "localkit" "2.0" 41327 3000 8001.

Definition demoWorld_on (present : list string) (write_fails : bool) : World :=
  mkWorld "/home/dev" "/home/dev" demo_config "linux"
          (fun u => "sha1:" +:+ u)
          demo_id
          (Some (mkLoginBody "dev-box" "client-1" "user-1"))
          (fun p => bool_decide (p ∈ present))
          (fun p => bool_decide (p = "/tmp/app/www"))
          (fun p => if bool_decide (p ∈ present) then inr ("data of " +:+ p)
                    else inl "ENOENT")
          (fun _ _ => if write_fails then Some ("EACCES", None) else None)
          (fun _ dir => if bool_decide (dir = "/tmp/lib/www")
                        then Some "watch limit reached" else None)
          (fun _ => None)
          ["192.168.0.255"; "10.0.0.255"]
          (fun _ => SendOk).

Definition demoWorld : World := demoWorld_on demo_files false.

Definition demo_app : Project := mkProject FileWatcher_new "/tmp/app".

Definition demoKit : Localkit :=
  set_projects {[ "P1" := demo_app ]} Localkit_new.

(** A state outside the reach of the object's own methods: the flag is
    raised and the one watcher runs. *)
Definition demoKit_running : Localkit :=
  set_isWatching true
    (set_projects
       {[ "P1" := mkProject (mkFileWatcher true (Some "/tmp/app/www") (Some "P1"))
                            "/tmp/app" ]}
       Localkit_new).

(** Two worlds for reconciliation: they differ in whether [/tmp/empty]
    has a [www] directory. *)
Definition reconcile_list : list string :=
  ["/tmp/app"; "/tmp/nowww"; "/tmp/empty"].

Definition world_one_www : World := demoWorld_on ["/tmp/app/www"] false.

(** A world in which [/tmp/nowww/www] exists but is a regular file. *)
Definition world_www_file : World := demoWorld_on ["/tmp/nowww/www"] false.

Definition world_two_www : World :=
  demoWorld_on ["/tmp/app/www"; "/tmp/empty/www"] false.

Definition demoKit_paired : Localkit :=
  set_pairingKeys {[ "client-hash" := "pairing-key" ]} demoKit.

(** The beacon timer is armed (handle 7); no HTTP server was started. *)
Definition demoKit_beacon : Localkit :=
  mkLocalkit ∅ false ∅ true false None (Some 7%nat).

Definition demoKit_listening (port : Z) : Localkit :=
  mkLocalkit ∅ false ∅ true true (Some (mkServer (Some port))) (Some 7%nat).

(** File maps for the examples: a checksum per key. *)
Definition demo_tree : gmap string nat :=
  {[ "/www/index.html" := 1%nat; "/www/.git/config" := 2%nat;
     "/README.md" := 3%nat; "/node_modules/pkg/www/a.js" := 4%nat ]}.

Definition demo_tree_relative : gmap string nat :=
  {[ "www/index.html" := 1%nat; "README.md" := 3%nat ]}.

(** ** Further methods of the object *)

(** *** [getProjects]

    One request to the identity collaborator per registry entry, gathered
    with [Q.all]. *)
Definition getProjects {Info} (getProjectInfo : string -> promise Info)
    (s : Localkit) : promise (list Info) :=
  Q_all (map (fun kv => getProjectInfo (path kv.2)) (map_to_list (projects s))).

(** *** [_getLocalIp]

    [os.networkInterfaces()] is a dictionary from interface names to arrays
    of addresses, here the list of its entries in enumeration order.  The
    inner loop counts [j] up to the length of the array but reads the entry
    at the outer index [i]. *)
Record NetAddress := mkNetAddress {
  na_address : string;
  na_family : string;
  na_internal : bool
}.

Definition usable (a : NetAddress) : bool :=
  bool_decide (na_family a = "IPv4") && negb (na_internal a).

Fixpoint getLocalIp_inner (addresses : list NetAddress) (i turns : nat)
  : option string :=
  match turns with
  | O => None
  | S turns' =>
      match addresses !! i with
      | Some a =>
          if usable a then Some (na_address a)
          else getLocalIp_inner addresses i turns'
      | None => getLocalIp_inner addresses i turns'
      end
  end.

Fixpoint getLocalIp_outer (ifaces : list (string * list NetAddress)) (i : nat)
  : string :=
  match ifaces with
  | [] => "0.0.0.0"
  | (_, addresses) :: rest =>
      match getLocalIp_inner addresses i (length addresses) with
      | Some found => found
      | None => getLocalIp_outer rest (S i)
      end
  end.

Definition _getLocalIp (ifaces : list (string * list NetAddress)) : string :=
  getLocalIp_outer ifaces 0.

(** *** [startBeaconTransmitter]

    [loggedIn] is [this.monaca._loggedIn]; [handle] is what [setInterval]
    returns.  Next to the object the model keeps the list of timers that
    are armed. *)
Definition NotLoggedIn : error := "Must be logged in to use this method.".

Definition startBeaconTransmitter (loggedIn : bool) (handle : nat)
    (s : Localkit) (armed : list nat) : promise unit * Localkit * list nat :=
  if negb loggedIn then (Rejected NotLoggedIn, s, armed)
  else
    (Resolved tt,
     mkLocalkit (projects s) (_isWatching s) (pairingKeys s) true
                (httpServerRunning s) (server s) (Some handle),
     handle :: armed).

(** [clearInterval] on the armed timers. *)
Fixpoint disarm (fx : list effect) (armed : list nat) : list nat :=
  match fx with
  | [] => armed
  | ClearInterval h :: rest =>
      disarm rest (List.filter (fun h' => negb (bool_decide (h' = h))) armed)
  | _ :: rest => disarm rest armed
  end.

(** [stopBeaconTransmitter] as a method: the promise, the object and the
    timers left armed. *)
Definition stopBeaconTransmitter_call (s : Localkit) (armed : list nat)
  : promise unit * Localkit * list nat :=
  let '(s', fx) := stopBeaconTransmitter s in
  (Resolved tt, s', disarm fx armed).

(** *** The HTTP server and the event bridge

    Modelled from the spec: the event bridge (localkit/projectEvents.js is
    not among the sources) keeps the connected clients and receives the
    start signals; here it records the signals it was given. *)
Record ProjectEvents := mkProjectEvents {
  connectedClients : list string;
  startEvents : list (string * option string)
}.

Definition ProjectEvents_new : ProjectEvents := mkProjectEvents [] [].

(** The object together with its [projectEvents] property, which is
    undefined until the HTTP server has started. *)
Record Session := mkSession {
  kit : Localkit;
  projectEvents : option ProjectEvents
}.

Definition Session_new : Session := mkSession Localkit_new None.

(** What the runtime's server does: [listen_outcome] answers the bound port
    or the error of the [error] event, [close_outcome] the error handed to
    the callback of [close], if any. *)
Record Net := mkNet {
  listen_outcome : Server -> Z -> error + Z;
  close_outcome : Server -> option error;
  interfaces : list (string * list NetAddress)
}.

Definition set_server (srv : option Server) (running : bool) (s : Localkit)
  : Localkit :=
  mkLocalkit (projects s) (_isWatching s) (pairingKeys s)
             (beaconTransmitterRunning s) running srv (_interval s).

(** [params.httpPort || config.http_server_port] *)
Definition chosen_port (W : World) (httpPort : option Z) : Z :=
  match httpPort with
  | Some p => if bool_decide (p = 0) then http_server_port (config W) else p
  | None => http_server_port (config W)
  end.

Definition startHttpServer (N : Net) (W : World) (x : Session)
    (httpPort : option Z) : promise (string * Z) * Session :=
  let srv := match server (kit x) with
             | Some srv => srv
             | None => mkServer None
             end in
  let port := chosen_port W httpPort in
  match listen_outcome N srv port with
  | inl e =>
      (Rejected e,
       mkSession (set_server (Some srv) (httpServerRunning (kit x)) (kit x))
                 (projectEvents x))
  | inr bound =>
      (Resolved (_getLocalIp (interfaces N), port),
       mkSession (set_server (Some (mkServer (Some bound))) true (kit x))
                 (Some ProjectEvents_new))
  end.

(** A method call either throws or hands back a promise. *)
Inductive call (A : Type) : Type :=
| Threw
| Returned (p : promise A).
Arguments Threw {A}.
Arguments Returned {A} p.

(** [this.server.close] on an object without server is a [TypeError]. *)
Definition stopHttpServer (N : Net) (x : Session) : call unit * Session :=
  match server (kit x) with
  | None => (Threw, x)
  | Some srv =>
      match close_outcome N srv with
      | Some e => (Returned (Rejected e), x)
      | None =>
          (Returned (Resolved tt),
           mkSession (set_server (Some (mkServer None)) false (kit x))
                     (projectEvents x))
      end
  end.

(** [this.projectEvents.connectedClients] *)
Definition getClientList (x : Session) : call (list string) :=
  match projectEvents x with
  | None => Threw
  | Some pe => Returned (Resolved (connectedClients pe))
  end.

(** [startProject]: [send_error] says whether [sendStartEvent] throws; a
    missing event bridge is a [TypeError], caught like any other. *)
Definition TypeError : error := "TypeError".

Definition startProject (W : World)
    (send_error : string -> option string -> option error)
    (x : Session) (projectPath : string) (clientId : option string)
  : promise string * Session :=
  match getLocalProjectId W projectPath with
  | Rejected e => (Rejected e, x)
  | Pending => (Pending, x)
  | Resolved projectId =>
      if negb (bool_decide (is_Some (projects (kit x) !! projectId)))
      then (Rejected (NoProjectWithId projectId), x)
      else match projectEvents x with
           | None => (Rejected TypeError, x)
           | Some pe =>
               match send_error projectId clientId with
               | Some e => (Rejected e, x)
               | None =>
                   (Resolved projectId,
                    mkSession (kit x)
                      (Some (mkProjectEvents
                               (connectedClients pe)
                               (startEvents pe ++ [(projectId, clientId)]))))
               end
           end
  end.

(** ** Vocabulary for the further properties *)

(** What [stopWatch] does to one project, and the promise it creates. *)
Definition stops (W : World) (p : Project) : bool :=
  FileWatcher_isRunning (fileWatcher p)
  && bool_decide (watch_stop W (fileWatcher p) = None).

Definition stopped (p : Project) : Project :=
  mkProject (mkFileWatcher false (watched (fileWatcher p))
                           (onchange (fileWatcher p)))
            (path p).

Definition stop_one (W : World) (p : Project) : Project :=
  if stops W p then stopped p else p.

Definition stop_promise (W : World) (p : Project) : option (promise string) :=
  if FileWatcher_isRunning (fileWatcher p)
  then Some (match watch_stop W (fileWatcher p) with
             | Some e => Rejected e
             | None => Resolved (path p)
             end)
  else None.

(** An entry as the object's own methods leave it: filed under the id its
    path resolves to, its change callback tagged with that id, and its
    watcher, when running, on the [www] directory below its path. *)
Definition entry_consistent (W : World) (projectId : string) (p : Project)
  : Prop :=
  getLocalProjectId W (path p) = Resolved projectId
  /\ onchange (fileWatcher p) = Some projectId
  /\ (running (fileWatcher p) = true ->
      watched (fileWatcher p) = Some (Path.join [path p; "www"])).

Definition registry_consistent (W : World) (s : Localkit) : Prop :=
  forall projectId p,
    projects s !! projectId = Some p -> entry_consistent W projectId p.

(** A world in which the watcher on [/tmp/lib/www] cannot be stopped. *)
Definition demoWorld_stuck : World :=
  mkWorld (cwd demoWorld) (home demoWorld) (config demoWorld)
          (os_platform demoWorld) (sha1_hex demoWorld)
          (getLocalProjectId demoWorld) (loginBody demoWorld)
          (fs_exists demoWorld) (fs_isDirectory demoWorld)
          (fs_readFile demoWorld) (fs_writeFile demoWorld)
          (fun _ _ => None)
          (fun w => if bool_decide (watched w = Some "/tmp/lib/www")
                    then Some "watcher busy" else None)
          (broadcastAddresses demoWorld) (udp_send demoWorld).

(** A world in which every watcher starts and stops. *)
Definition demoWorld_calm : World :=
  mkWorld (cwd demoWorld) (home demoWorld) (config demoWorld)
          (os_platform demoWorld) (sha1_hex demoWorld)
          (getLocalProjectId demoWorld) (loginBody demoWorld)
          (fs_exists demoWorld) (fs_isDirectory demoWorld)
          (fs_readFile demoWorld) (fs_writeFile demoWorld)
          (fun _ _ => None) (fun _ => None)
          (broadcastAddresses demoWorld) (udp_send demoWorld).

Definition demo_watching (projectDir tag : string) : Project :=
  mkProject (mkFileWatcher true (Some (Path.join [projectDir; "www"]))
                           (Some tag))
            projectDir.

(** Two projects, both watched. *)
Definition demoKit_two : Localkit :=
  set_projects {[ "P1" := demo_watching "/tmp/app" "P1";
                  "P2" := demo_watching "/tmp/lib" "P2" ]} Localkit_new.

(** A registry whose one entry is filed under the empty id. *)
Definition demoKit_anonymous : Localkit :=
  set_projects {[ "" := demo_app ]} Localkit_new.

(** The path a file-system call is about. *)
Definition fs_call_path (c : fs_call) : string :=
  match c with
  | FsExists p | FsLstat p | FsReadFile p => p
  end.

(** The addresses the datagrams of a step went to, in order. *)
Definition sent_to (fx : list effect) : list string :=
  omap (fun e => match e with UdpSend a _ _ => Some a | _ => None end) fx.

(** The beacon payload of a state with a bound port. *)
Definition beacon_message (W : World) (port : Z) (lb : LoginBody)
  : ServerInfo :=
  mkServerInfo (config_type (config W)) port (os_platform W)
               (serverName lb) (clientId lb) (sha1_hex W (userId lb))
               (config_version (config W)).

(** A world without login body. *)
Definition demoWorld_anonymous : World :=
  mkWorld (cwd demoWorld) (home demoWorld) (config demoWorld)
          (os_platform demoWorld) (sha1_hex demoWorld)
          (getLocalProjectId demoWorld) None
          (fs_exists demoWorld) (fs_isDirectory demoWorld)
          (fs_readFile demoWorld) (fs_writeFile demoWorld)
          (watch_run demoWorld) (watch_stop demoWorld)
          (broadcastAddresses demoWorld) (udp_send demoWorld).

(** A world in which the second broadcast address cannot be reached. *)
Definition demoWorld_lossy : World :=
  mkWorld (cwd demoWorld) (home demoWorld) (config demoWorld)
          (os_platform demoWorld) (sha1_hex demoWorld)
          (getLocalProjectId demoWorld) (loginBody demoWorld)
          (fs_exists demoWorld) (fs_isDirectory demoWorld)
          (fs_readFile demoWorld) (fs_writeFile demoWorld)
          (watch_run demoWorld) (watch_stop demoWorld)
          (broadcastAddresses demoWorld)
          (fun a => if bool_decide (a = "10.0.0.255")
                    then SendError "ENETUNREACH" else SendOk).

(** A host with a loopback interface and one wired interface. *)
Definition demo_interfaces : list (string * list NetAddress) :=
  [("lo", [mkNetAddress "127.0.0.1" "IPv4" true]);
   ("eth0", [mkNetAddress "192.168.0.7" "IPv4" false])].

Definition demo_interfaces_found : list (string * list NetAddress) :=
  [("eth0", [mkNetAddress "192.168.0.7" "IPv4" false]);
   ("lo", [mkNetAddress "127.0.0.1" "IPv4" true])].

Definition demoNet : Net :=
  mkNet (fun _ port => if bool_decide (port = 80) then inl "EACCES"
                       else inr port)
        (fun srv => match address srv with
                    | Some _ => None
                    | None => Some "Not running"
                    end)
        demo_interfaces.


(** * Properties *)

(** ** Strings *)

Lemma startsWith_app (n r : string) : JS.startsWith n (n +:+ r) = true.
Proof.
  induction n as [|a n IH]; simpl; [done|].
  rewrite bool_decide_eq_true_2; done.
Qed.

Lemma startsWith_inv (n h : string) :
  JS.startsWith n h = true -> exists r, h = n +:+ r.
Proof.
  revert h. induction n as [|a n IH]; intros h H; simpl in *.
  - by exists h.
  - destruct h as [|b h]; [done|].
    apply andb_prop in H as [Hab Hn]. apply bool_decide_eq_true_1 in Hab.
    destruct (IH _ Hn) as [r ->]. exists r. by subst.
Qed.

Lemma indexOf_from_lower (n h : string) (i : Z) :
  JS.indexOf_from n h i = -1 \/ i <= JS.indexOf_from n h i.
Proof.
  revert i. induction h as [|c h IH]; intros i; simpl.
  - destruct (JS.startsWith n EmptyString); lia.
  - destruct (JS.startsWith n (String c h)); [lia|].
    destruct (IH (i + 1)); lia.
Qed.

Lemma indexOf_from_includes (n h : string) (i : Z) :
  0 <= i ->
  bool_decide (0 <= JS.indexOf_from n h i) = JS.includes n h.
Proof.
  revert i. induction h as [|c h IH]; intros i Hi; simpl.
  - destruct (JS.startsWith n EmptyString); simpl.
    + by apply bool_decide_eq_true_2.
    + done.
  - destruct (JS.startsWith n (String c h)); simpl.
    + by apply bool_decide_eq_true_2.
    + apply IH. lia.
Qed.

Lemma indexOf_includes (h n : string) :
  bool_decide (0 <= JS.indexOf h n) = JS.includes n h.
Proof. by apply indexOf_from_includes. Qed.

(** [indexOf] answers [0] exactly for a prefix. *)
Lemma indexOf_zero (h n : string) :
  bool_decide (JS.indexOf h n = 0) = JS.startsWith n h.
Proof.
  unfold JS.indexOf. destruct h as [|c h]; simpl.
  - destruct (JS.startsWith n EmptyString); by simpl.
  - destruct (JS.startsWith n (String c h)); [done|].
    apply bool_decide_eq_false_2.
    destruct (indexOf_from_lower n h (0 + 1)); lia.
Qed.

Lemma split_slash_nonempty (s : string) : JS.split_slash s <> [].
Proof.
  destruct s as [|c r]; cbn [JS.split_slash]; [done|].
  case_bool_decide; [done|]. by destruct (JS.split_slash r).
Qed.

Lemma split_slash_cons_slash (r : string) :
  JS.split_slash (String JS.slash r) = EmptyString :: JS.split_slash r.
Proof. cbn [JS.split_slash]. by rewrite bool_decide_eq_true_2. Qed.

(** The two ways of finding a hidden component agree: a component begins
    with a dot when the path does, or when a dot follows a slash. *)
Lemma includes_slash_dot_cons (c : ascii) (r : string) :
  JS.includes "/." (String c r)
  = bool_decide (c = JS.slash) && JS.startsWith "." r || JS.includes "/." r.
Proof.
  cbn [JS.includes JS.startsWith]. f_equal. f_equal.
  apply bool_decide_ext. unfold JS.slash. naive_solver.
Qed.

Lemma hidden_split (p : string) :
  existsb hidden_component (JS.split_slash p)
    = JS.startsWith "." p || JS.includes "/." p
  /\ existsb hidden_component (tail (JS.split_slash p)) = JS.includes "/." p.
Proof.
  induction p as [|c r [IH1 IH2]]; [done|].
  rewrite includes_slash_dot_cons.
  cbn [JS.split_slash]. case_bool_decide as Hc.
  - subst c. cbn [tail existsb]. rewrite IH1. split; [|done].
    done.
  - pose proof (split_slash_nonempty r) as Hne.
    destruct (JS.split_slash r) as [|h t]; [done|].
    cbn [tail existsb andb orb] in *. rewrite IH2.
    split; [by f_equal|done].
Qed.

Lemma no_slash_split (p : string) :
  JS.no_slash p = true <-> JS.split_slash p = [p].
Proof.
  induction p as [|c r IH]; [done|].
  cbn [JS.no_slash JS.split_slash]. case_bool_decide as Hc; simpl.
  - split; [done|]. intros [=].
  - rewrite IH. pose proof (split_slash_nonempty r).
    destruct (JS.split_slash r) as [|h t]; [done|].
    split; intros ?; by simplify_eq.
Qed.

Lemma split_slash_app (x r : string) :
  JS.no_slash x = true ->
  JS.split_slash (x +:+ String JS.slash r) = x :: JS.split_slash r.
Proof.
  induction x as [|c x IH]; intros Hx.
  - apply split_slash_cons_slash.
  - cbn [JS.no_slash] in Hx. apply andb_prop in Hx as [Hc Hx].
    apply negb_true_iff, bool_decide_eq_false_1 in Hc.
    change (String c x +:+ String JS.slash r)
      with (String c (x +:+ String JS.slash r)).
    cbn [JS.split_slash].
    rewrite bool_decide_eq_false_2 by done. by rewrite IH.
Qed.

(** A first component followed by something is a prefix ending in a slash. *)
Lemma split_slash_head (p h : string) (t : list string) :
  JS.split_slash p = h :: t -> t <> [] ->
  exists r, p = h +:+ String JS.slash r.
Proof.
  revert h t. induction p as [|c r IH]; intros h t Hs Ht.
  - simpl in Hs. by simplify_eq.
  - cbn [JS.split_slash] in Hs. case_bool_decide as Hc.
    + simplify_eq. by exists r.
    + pose proof (split_slash_nonempty r).
      destruct (JS.split_slash r) as [|h' t'] eqn:Hr; [done|]. simplify_eq.
      destruct (IH _ _ eq_refl Ht) as [r' ->]. by exists r'.
Qed.

Lemma under_www_startsWith (p : string) :
  spec_under_www p = JS.startsWith "www/" p.
Proof.
  unfold spec_under_www.
  destruct (JS.startsWith "www/" p) eqn:Hw.
  - apply startsWith_inv in Hw as [r ->].
    change ("www/" +:+ r) with ("www" +:+ String JS.slash r).
    rewrite split_slash_app by done.
    pose proof (split_slash_nonempty r). by destruct (JS.split_slash r).
  - destruct (JS.split_slash p) as [|top [|x t]] eqn:Hs; [done..|].
    case_bool_decide as Htop; [|done]. subst top.
    destruct (split_slash_head p "www" (x :: t) Hs) as [r ->]; [done|].
    change ("www" +:+ String JS.slash r) with ("www/" +:+ r) in Hw.
    by rewrite startsWith_app in Hw.
Qed.

Lemma split_slash_singleton (p h : string) :
  JS.split_slash p = [h] -> h = p.
Proof.
  revert h. induction p as [|c r IH]; intros h Hs.
  - simpl in Hs. by simplify_eq.
  - cbn [JS.split_slash] in Hs. case_bool_decide.
    + pose proof (split_slash_nonempty r). by simplify_eq.
    + pose proof (split_slash_nonempty r) as Hne.
      destruct (JS.split_slash r) as [|h' [|x t]]; simplify_eq.
      f_equal. by apply IH.
Qed.

Lemma bare_no_slash (p : string) : spec_bare p = JS.no_slash p.
Proof.
  unfold spec_bare. destruct (JS.no_slash p) eqn:Hn.
  - apply no_slash_split in Hn. rewrite Hn. done.
  - apply bool_decide_eq_false_2. intros Hlen.
    destruct (JS.split_slash p) as [|h [|x t]] eqn:Hs; simplify_eq/=.
    assert (JS.no_slash p = true); [|congruence].
    apply no_slash_split. rewrite Hs. f_equal.
    by apply split_slash_singleton.
Qed.

(** The filter, on a key written with its leading slash, is the
    specification's predicate on the path behind the slash. *)
Lemma fileFilter_rooted (p : string) :
  fileFilter (String JS.slash p) = spec_keeps p.
Proof.
  unfold fileFilter, spec_keeps, spec_no_hidden.
  rewrite indexOf_includes, includes_slash_dot_cons.
  rewrite bool_decide_eq_true_2 by done. cbn [andb].
  destruct (hidden_split p) as [-> _].
  rewrite under_www_startsWith, bare_no_slash.
  destruct (JS.startsWith "." p || JS.includes "/." p); [done|].
  cbn [negb andb re_www_or_bare]. by rewrite bool_decide_eq_true_2.
Qed.

Lemma fileFilter_unrooted (fn : string) :
  JS.charAt0_is JS.slash fn = false -> fileFilter fn = false.
Proof.
  intros Hfn. unfold fileFilter. case_bool_decide; [done|].
  destruct fn as [|c r]; [done|]. simpl in *. by rewrite Hfn.
Qed.

Lemma fileFilter_spec (fn : string) :
  fileFilter fn = true <->
  exists p, fn = String JS.slash p /\ spec_keeps p = true.
Proof.
  split.
  - intros Hf. destruct (JS.charAt0_is JS.slash fn) eqn:Hc.
    + destruct fn as [|c p]; [done|]. simpl in Hc.
      apply bool_decide_eq_true_1 in Hc. subst c.
      exists p. by rewrite <- fileFilter_rooted.
    + by rewrite fileFilter_unrooted in Hf.
  - intros (p & -> & Hp). by rewrite fileFilter_rooted.
Qed.

(** ** The file tree: [getProjectFiles] *)

Lemma elem_of_Object_keys {V} (o : gmap string V) (k : string) :
  k ∈ Object_keys o <-> is_Some (o !! k).
Proof.
  unfold Object_keys. rewrite list_elem_of_fmap. split.
  - intros ([k' v] & -> & Hin). apply elem_of_map_to_list in Hin. by exists v.
  - intros [v Hv]. exists (k, v). split; [done|]. by apply elem_of_map_to_list.
Qed.

Lemma elem_of_filter_bool {A} (f : A -> bool) (l : list A) (x : A) :
  x ∈ List.filter f l <-> x ∈ l /\ f x = true.
Proof. rewrite !list_elem_of_In. apply filter_In. Qed.

Lemma foldl_copy_entry_lookup {V} (files : gmap string V) (l : list string)
    (acc : gmap string V) (k : string) :
  foldl (copy_entry files) acc l !! k
  = if bool_decide (k ∈ l)
    then match files !! k with Some v => Some v | None => acc !! k end
    else acc !! k.
Proof.
  revert acc. induction l as [|a l IH]; intros acc; [done|].
  cbn [foldl]. rewrite IH. unfold copy_entry.
  destruct (decide (k = a)) as [->|Hne].
  - rewrite (bool_decide_eq_true_2 (a ∈ a :: l)) by apply list_elem_of_here.
    destruct (files !! a) as [v|] eqn:Hv.
    + rewrite lookup_insert_eq. by case_bool_decide.
    + by case_bool_decide.
  - assert (bool_decide (k ∈ a :: l) = bool_decide (k ∈ l)) as ->.
    { apply bool_decide_ext. rewrite elem_of_cons. split; [by intros [?|?]|by right]. }
    destruct (files !! a); [|done]. by rewrite lookup_insert_ne.
Qed.

(** The result of the copying loop, entry by entry. *)
Lemma filter_files_lookup {V} (files : gmap string V) (k : string) :
  filter_files files !! k = if fileFilter k then files !! k else None.
Proof.
  unfold filter_files. rewrite foldl_copy_entry_lookup, lookup_empty.
  case_bool_decide as Hin.
  - apply elem_of_filter_bool in Hin as [_ ->]. by destruct (files !! k).
  - destruct (fileFilter k) eqn:Hf; [|done].
    destruct (files !! k) as [v|] eqn:Hv; [|done].
    exfalso. apply Hin, elem_of_filter_bool. split; [|done].
    apply elem_of_Object_keys. by exists v.
Qed.

Lemma filter_files_subseteq {V} (files : gmap string V) :
  filter_files files ⊆ files.
Proof.
  apply map_subseteq_spec. intros k v. rewrite filter_files_lookup.
  by destruct (fileFilter k).
Qed.

(** C10. [getProjectFiles] resolves with a restriction of the collaborator's
    file map: every entry of the result is an entry of that map with the
    same value, and the result has no key of its own. *)
Theorem getProjectFiles_restriction {V}
    (getLocalProjectFiles : string -> promise (gmap string V))
    (s : Localkit) (projectId : string) (project : Project)
    (files : gmap string V) :
  projects s !! projectId = Some project ->
  getLocalProjectFiles (path project) = Resolved files ->
  exists result,
    getProjectFiles getLocalProjectFiles s projectId = Resolved result
    /\ (forall k v, result !! k = Some v -> files !! k = Some v)
    /\ dom result ⊆ dom files
    /\ (forall k, is_Some (result !! k) -> result !! k = files !! k).
Proof.
  intros Hp Hf. exists (filter_files files). unfold getProjectFiles.
  rewrite Hp, Hf. split; [done|].
  pose proof (filter_files_subseteq files) as Hsub.
  split; [|split].
  - intros k v. by apply map_subseteq_spec.
  - by apply subseteq_dom.
  - intros k [v Hv]. rewrite Hv. symmetry.
    by eapply map_subseteq_spec.
Qed.

Lemma getProjectFiles_restriction_witness :
  exists result,
    getProjectFiles (fun _ => Resolved demo_tree) demoKit "P1" = Resolved result
    /\ (forall k v, result !! k = Some v -> demo_tree !! k = Some v)
    /\ dom result ⊆ dom demo_tree
    /\ (forall k, is_Some (result !! k) -> result !! k = demo_tree !! k).
Proof.
  apply (getProjectFiles_restriction (fun _ => Resolved demo_tree)
           demoKit "P1" demo_app demo_tree); reflexivity.
Defined.

(** C2, as amended.  The keys of the enumeration carry a leading slash.  A
    key is kept exactly when it is such a rooted path and the path behind
    the slash has no component beginning with a dot and either lies under
    the top-level [www] directory or has no directory component. *)
Theorem getProjectFiles_keeps {V}
    (getLocalProjectFiles : string -> promise (gmap string V))
    (s : Localkit) (projectId : string) (project : Project)
    (files : gmap string V) :
  projects s !! projectId = Some project ->
  getLocalProjectFiles (path project) = Resolved files ->
  exists result,
    getProjectFiles getLocalProjectFiles s projectId = Resolved result
    /\ forall key, is_Some (files !! key) ->
         (is_Some (result !! key) <->
          exists p, key = String JS.slash p /\ spec_keeps p = true).
Proof.
  intros Hp Hf. exists (filter_files files). unfold getProjectFiles.
  rewrite Hp, Hf. split; [done|]. intros key Hkey.
  rewrite filter_files_lookup, <- fileFilter_spec.
  destruct (fileFilter key); [done|]. split; [|done].
  by intros [? ?].
Qed.

Lemma getProjectFiles_keeps_witness :
  exists result,
    getProjectFiles (fun _ => Resolved demo_tree) demoKit "P1" = Resolved result
    /\ forall key, is_Some (demo_tree !! key) ->
         (is_Some (result !! key) <->
          exists p, key = String JS.slash p /\ spec_keeps p = true).
Proof.
  apply (getProjectFiles_keeps (fun _ => Resolved demo_tree)
           demoKit "P1" demo_app demo_tree); reflexivity.
Defined.

(** The four paths of the specification, written as the keys they are. *)
Lemma fileFilter_examples :
  fileFilter "/www/.git/config" = false
  /\ fileFilter "/node_modules/pkg/www/a.js" = false
  /\ fileFilter "/www/index.html" = true
  /\ fileFilter "/README.md" = true.
Proof. by vm_compute. Qed.

(** C2, as stated, fails on keys written without the leading slash: the
    specification's predicate keeps [www/index.html] and [README.md], the
    code drops both. *)
Lemma getProjectFiles_drops_relative_keys :
  spec_keeps "www/index.html" = true
  /\ spec_keeps "README.md" = true
  /\ getProjectFiles (fun _ => Resolved demo_tree_relative) demoKit "P1"
     = Resolved ∅.
Proof. by vm_compute. Qed.

(** ** The registry: [addProject] and [removeProject] *)

Lemma addProject_keeps_flag W s p :
  _isWatching (addProject W s p).2 = _isWatching s.
Proof.
  unfold addProject. repeat (case_match; simpl; try done).
Qed.

Lemma removeProject_keeps_flag W s p :
  _isWatching (removeProject W s p).2 = _isWatching s.
Proof.
  unfold removeProject. repeat (case_match; simpl; try done).
Qed.

(** A call that does not resolve changes nothing. *)
Lemma addProject_unresolved W s p :
  is_resolved (addProject W s p).1 = false -> (addProject W s p).2 = s.
Proof.
  unfold addProject. repeat (case_match; simpl; try done).
Qed.

(** What the test of [addProject] does ensure.  When nothing at all
    exists under the name [www] below the path, [addProject] does not
    resolve and leaves the object as it was; once the identity collaborator
    has answered, the failure is the missing-content-root error.  And
    whatever makes [addProject] fail (the collaborator, the missing entry,
    the watcher that does not start), the object, and so the registry, is
    as before the call. *)
Theorem addProject_failure_leaves_no_trace W s p :
  (fs_exists W (Path.join [p; "www"]) = false ->
     (addProject W s p).2 = s
     /\ is_resolved (addProject W s p).1 = false
     /\ forall projectId, getLocalProjectId W p = Resolved projectId ->
          (addProject W s p).1 = Rejected (MissingContentRoot p))
  /\ (forall e, (addProject W s p).1 = Rejected e ->
        (addProject W s p).2 = s
        /\ projects (addProject W s p).2 = projects s).
Proof.
  split.
  - intros Hwww. unfold addProject. rewrite Hwww. cbn [negb].
    destruct (getLocalProjectId W p) as [projectId|e|]; simpl;
      (split; [done|split; [done|]]); intros ? [=]; done.
  - intros e He. rewrite addProject_unresolved; [done|]. by rewrite He.
Qed.

(** The watcher that does not start: the flag is raised, [/tmp/lib] has its
    [www] directory, and the world refuses to watch it. *)
Lemma addProject_watcher_failure_example :
  addProject demoWorld demoKit_running "/tmp/lib"
  = (Rejected "watch limit reached", demoKit_running).
Proof. reflexivity. Qed.

(** Registering a second time gives the same id and leaves the one entry. *)
Lemma addProject_twice_example :
  addProject demoWorld (addProject demoWorld Localkit_new "/tmp/app").2 "/tmp/app"
  = (Resolved "P1", (addProject demoWorld Localkit_new "/tmp/app").2).
Proof. reflexivity. Qed.

Lemma addProject_failure_leaves_no_trace_witness :
  (addProject demoWorld demoKit "/tmp/nowww").2 = demoKit
  /\ is_resolved (addProject demoWorld demoKit "/tmp/nowww").1 = false
  /\ forall projectId, getLocalProjectId demoWorld "/tmp/nowww" = Resolved projectId ->
       (addProject demoWorld demoKit "/tmp/nowww").1
       = Rejected (MissingContentRoot "/tmp/nowww").
Proof.
  apply (proj1 (addProject_failure_leaves_no_trace demoWorld demoKit "/tmp/nowww")).
  reflexivity.
Defined.

(** C7, on the code.  The test before registration is [fs.existsSync]
    alone.  A path below which [www] exists without being a directory has
    no [www] subdirectory, and yet [addProject] resolves and files an entry
    for it, where its own message speaks of a missing [www] directory. *)
Theorem addProject_accepts_www_file W s p projectId :
  getLocalProjectId W p = Resolved projectId ->
  fs_exists W (Path.join [p; "www"]) = true ->
  fs_isDirectory W (Path.join [p; "www"]) = false ->
  projects s !! projectId = None ->
  isWatching s = false ->
  has_www_directory W p = false
  /\ (addProject W s p).1 = Resolved projectId
  /\ projects (addProject W s p).2 !! projectId
     = Some (mkProject (FileWatcher_onchange projectId FileWatcher_new) p).
Proof.
  intros Hid Hex Hdir Hnew Hflag. unfold has_www_directory.
  rewrite Hex, Hdir. split; [done|].
  unfold addProject. rewrite Hid, Hex. cbn [negb].
  rewrite bool_decide_eq_false_2 by (rewrite Hnew; by intros [? ?]).
  rewrite Hflag. cbn. by rewrite lookup_insert_eq.
Qed.

Lemma addProject_accepts_www_file_witness :
  has_www_directory world_www_file "/tmp/nowww" = false
  /\ (addProject world_www_file Localkit_new "/tmp/nowww").1 = Resolved "P3"
  /\ projects (addProject world_www_file Localkit_new "/tmp/nowww").2 !! "P3"
     = Some (mkProject (FileWatcher_onchange "P3" FileWatcher_new)
                       "/tmp/nowww").
Proof.
  apply (addProject_accepts_www_file world_www_file Localkit_new
           "/tmp/nowww" "P3"); reflexivity.
Defined.

(** C3, on the code.  When the resolved id is not in the registry,
    [removeProject] leaves the registry as it is, but its promise is never
    settled: the unknown project is not reported. *)
Theorem removeProject_unknown_never_settles W s p projectId :
  getLocalProjectId W p = Resolved projectId ->
  projects s !! projectId = None ->
  removeProject W s p = (Pending, s).
Proof. intros Hid Hnone. unfold removeProject. by rewrite Hid, Hnone. Qed.

Lemma removeProject_unknown_never_settles_witness :
  removeProject demoWorld Localkit_new "/tmp/app" = (Pending, Localkit_new).
Proof.
  apply (removeProject_unknown_never_settles demoWorld Localkit_new
           "/tmp/app" "P1"); reflexivity.
Defined.

(** ** The watch controller: [startWatch] and [stopWatch] *)

Lemma startWatch_fold W (m : gmap string Project)
    (l : list (string * Project)) :
  NoDup l.*1 ->
  forall (ps : gmap string Project) (paths : list string),
  (forall k v, (k, v) ∈ l -> ps !! k = Some v /\ m !! k = Some v) ->
  exists ps',
    foldl (startWatch_step W) (ps, paths) (List.filter (idle_in m) l.*1)
    = (ps', paths ++ omap (attached_dir W) l.*2)
    /\ forall k, ps' !! k = if bool_decide (k ∈ l.*1)
                           then start_one W <$> ps !! k else ps !! k.
Proof.
  induction l as [|[k0 v0] l IH]; intros Hnd ps paths Hl.
  { exists ps. by rewrite app_nil_r. }
  rewrite fmap_cons in Hnd. apply NoDup_cons in Hnd as [Hk0 Hnd].
  cbn [fst] in Hk0.
  destruct (Hl k0 v0) as [Hps Hm]; [by left|].
  assert (forall ps1 : gmap string Project, (forall k, k <> k0 -> ps1 !! k = ps !! k) ->
            forall k v, (k, v) ∈ l -> ps1 !! k = Some v /\ m !! k = Some v)
    as Hrest.
  { intros ps1 Hps1 k v Hin. destruct (Hl k v) as [? ?]; [by right|].
    split; [|done]. rewrite Hps1; [done|]. intros ->. apply Hk0.
    apply list_elem_of_fmap. by exists (k0, v). }
  assert (forall k (x y : option Project),
            (if bool_decide (k ∈ ((k0, v0) :: l).*1) then x else y)
            = if bool_decide (k = k0) then x
              else if bool_decide (k ∈ l.*1) then x else y) as Hmem.
  { intros k x y. rewrite fmap_cons. cbn [fst].
    destruct (decide (k = k0)) as [->|Hne].
    - rewrite (bool_decide_eq_true_2 (k0 = k0)) by done.
      by rewrite bool_decide_eq_true_2 by (by left).
    - rewrite (bool_decide_eq_false_2 (k = k0)) by done.
      erewrite bool_decide_ext; [done|].
      rewrite elem_of_cons. split; [by intros [?|?]|by right]. }
  cbn [fmap list_fmap fst snd List.filter omap list_omap].
  unfold idle_in at 1. rewrite Hm.
  unfold attached_dir at 1, attaches. unfold FileWatcher_isRunning.
  destruct (running (fileWatcher v0)) eqn:Hrun; cbn [negb andb].
  - (* already running: not visited *)
    destruct (IH Hnd ps paths (Hrest ps (fun _ _ => eq_refl))) as (ps' & Hf & Hlk).
    exists ps'. split; [done|]. intros k. rewrite Hmem, Hlk.
    destruct (decide (k = k0)) as [->|Hne]; [|by rewrite (bool_decide_eq_false_2 (k = k0))].
    rewrite (bool_decide_eq_true_2 (k0 = k0)) by done.
    rewrite (bool_decide_eq_false_2 (k0 ∈ l.*1)) by done. rewrite Hps. cbn.
    unfold start_one, attaches, FileWatcher_isRunning. by rewrite Hrun.
  - cbn [foldl]. unfold startWatch_step at 2. rewrite Hps.
    unfold FileWatcher_run.
    destruct (watch_run W (fileWatcher v0) (Path.join [path v0; "www"]))
      as [e|] eqn:Hw.
    + (* the watcher throws: logged and skipped *)
      rewrite bool_decide_eq_false_2 by done.
      destruct (IH Hnd ps paths (Hrest ps (fun _ _ => eq_refl)))
        as (ps' & Hf & Hlk).
      exists ps'. split; [done|]. intros k. rewrite Hmem, Hlk.
      destruct (decide (k = k0)) as [->|Hne];
        [|by rewrite (bool_decide_eq_false_2 (k = k0))].
      rewrite (bool_decide_eq_true_2 (k0 = k0)) by done.
      rewrite (bool_decide_eq_false_2 (k0 ∈ l.*1)) by done. rewrite Hps. cbn.
      unfold start_one, attaches, FileWatcher_isRunning.
      rewrite Hrun, Hw. by rewrite bool_decide_eq_false_2.
    + rewrite bool_decide_eq_true_2 by done.
      set (ps1 := <[k0 := set_fileWatcher _ v0]> ps).
      destruct (IH Hnd ps1 (paths ++ [Path.join [path v0; "www"]])) as (ps' & Hf & Hlk).
      { apply Hrest. intros k Hk. unfold ps1. by rewrite lookup_insert_ne. }
      exists ps'. split.
      { rewrite Hf. by rewrite <- app_assoc. }
      intros k. rewrite Hmem, Hlk.
      destruct (decide (k = k0)) as [->|Hne].
      * rewrite (bool_decide_eq_true_2 (k0 = k0)) by done.
        rewrite (bool_decide_eq_false_2 (k0 ∈ l.*1)) by done.
        unfold ps1. rewrite lookup_insert_eq, Hps. cbn.
        unfold start_one, attaches, FileWatcher_isRunning.
        rewrite Hrun, Hw. by rewrite bool_decide_eq_true_2.
      * rewrite (bool_decide_eq_false_2 (k = k0)) by done.
        unfold ps1. by rewrite lookup_insert_ne.
Qed.

(** [startWatch] in closed form: every project is treated on its own. *)
Lemma startWatch_eq W s :
  startWatch W s
  = (Resolved (omap (attached_dir W) (map_to_list (projects s)).*2),
     set_isWatching false (set_projects (start_one W <$> projects s) s)).
Proof.
  unfold startWatch, Object_keys.
  destruct (startWatch_fold W (projects s) (map_to_list (projects s))
              (NoDup_fst_map_to_list _) (projects s) [])
    as (ps' & Hf & Hlk).
  { intros k v Hin. by apply elem_of_map_to_list in Hin. }
  rewrite Hf. cbn [app]. do 3 f_equal.
  apply map_eq. intros k. rewrite Hlk, lookup_fmap.
  case_bool_decide as Hk; [done|].
  destruct (projects s !! k) as [v|] eqn:Hv; [|done].
  exfalso. apply Hk, list_elem_of_fmap. exists (k, v).
  split; [done|]. by apply elem_of_map_to_list.
Qed.

(** C4. [startWatch] always resolves.  The list it resolves with holds
    exactly the [www] directories of the projects that were idle when the
    call began and whose watcher started without throwing; those watchers
    run afterwards, every other project is untouched. *)
Theorem startWatch_always_resolves W s :
  exists paths s',
    startWatch W s = (Resolved paths, s')
    /\ paths = omap (attached_dir W) (map_to_list (projects s)).*2
    /\ (forall d, d ∈ paths <->
          exists projectId p,
            projects s !! projectId = Some p
            /\ FileWatcher_isRunning (fileWatcher p) = false
            /\ watch_run W (fileWatcher p) (Path.join [path p; "www"]) = None
            /\ d = Path.join [path p; "www"])
    /\ (forall projectId,
          projects s' !! projectId = start_one W <$> projects s !! projectId).
Proof.
  eexists _, _. split; [apply startWatch_eq|]. split; [done|]. split.
  - intros d. rewrite list_elem_of_omap. split.
    + intros (p & Hin & Hd). apply list_elem_of_fmap in Hin as ([k p'] & -> & Hin).
      apply elem_of_map_to_list in Hin. exists k, p'. split; [done|].
      unfold attached_dir, attaches in Hd. cbn [snd] in Hd.
      destruct (FileWatcher_isRunning (fileWatcher p')); [done|].
      cbn [negb andb] in Hd. case_bool_decide; by simplify_eq.
    + intros (k & p & Hp & Hidle & Hrun & ->). exists p. split.
      * apply list_elem_of_fmap. exists (k, p). split; [done|].
        by apply elem_of_map_to_list.
      * unfold attached_dir, attaches. rewrite Hidle, Hrun.
        by rewrite bool_decide_eq_true_2.
  - intros k. cbn. by rewrite lookup_fmap.
Qed.

Lemma stopWatch_flag W s :
  _isWatching (stopWatch W s).2 = _isWatching s
  \/ _isWatching (stopWatch W s).2 = false.
Proof.
  unfold stopWatch.
  destruct (foldl _ _ _) as [ps promises].
  destruct (Q_all promises); cbn; auto.
Qed.

Lemma stopWatch_resolved_flag W s paths :
  (stopWatch W s).1 = Resolved paths -> _isWatching (stopWatch W s).2 = false.
Proof.
  unfold stopWatch.
  destruct (foldl _ _ _) as [ps promises].
  destruct (Q_all promises); cbn; done.
Qed.

Lemma run_ops_keeps_flag W ops s :
  _isWatching (run_ops W s ops).2 = _isWatching s.
Proof.
  revert s. induction ops as [|o ops IH]; intros s; [done|].
  cbn [run_ops].
  assert (_isWatching (run_op W s o).2 = _isWatching s) as Ho.
  { destruct o; [apply addProject_keeps_flag|apply removeProject_keeps_flag]. }
  destruct (run_op W s o) as [r s1]. specialize (IH s1).
  destruct (run_ops W s1 ops) as [rs s2]. cbn in *. congruence.
Qed.

Lemma setProjects_keeps_flag W s pathList :
  _isWatching (setProjects W s pathList).2 = _isWatching s.
Proof.
  unfold setProjects. destruct (getProjects_ids W pathList); [|done..].
  pose proof (run_ops_keeps_flag W (setProjects_ops s pathList a) s) as H.
  by destruct (run_ops W s _).
Qed.

Lemma sendBeacon_keeps_flag W s :
  _isWatching (_sendBeacon W s).1.2 = _isWatching s.
Proof.
  unfold _sendBeacon, stopBeaconTransmitter.
  destruct (server_port s); [|destruct (_interval s)];
    destruct (_getServerInfo W _); done.
Qed.

Lemma clearPairing_keeps_flag W s disk :
  _isWatching (clearPairing W s disk).1.2 = _isWatching s.
Proof.
  unfold clearPairing. by destruct (fs_writeFile W _ _) as [[? ?]|].
Qed.

Lemma startWatchProject_keeps_flag W s projectDir :
  _isWatching (startWatchProject W s projectDir).2 = _isWatching s.
Proof.
  unfold startWatchProject. repeat (case_match; simpl; try done).
Qed.

Lemma stopWatchProject_keeps_flag W s projectDir :
  _isWatching (stopWatchProject W s projectDir).2 = _isWatching s.
Proof.
  unfold stopWatchProject. repeat (case_match; simpl; try done).
Qed.

(** Nothing in the object ever raises the flag. *)
Lemma reachable_flag_false W s : reachable W s -> isWatching s = false.
Proof.
  unfold isWatching. induction 1 as [|s p _ IH|s p _ IH|s _ _|s _ IH
                                    |s pl _ IH|s disk _ IH|s _ IH|
                                    |s d _ IH|s d _ IH|]; try done.
  - by rewrite addProject_keeps_flag.
  - by rewrite removeProject_keeps_flag.
  - by rewrite startWatch_eq.
  - destruct (stopWatch_flag W s); congruence.
  - by rewrite setProjects_keeps_flag.
  - by rewrite clearPairing_keeps_flag.
  - by rewrite sendBeacon_keeps_flag.
  - by rewrite startWatchProject_keeps_flag.
  - by rewrite stopWatchProject_keeps_flag.
Qed.

(** C5. After [startWatch] the flag reads false, whatever happened to the
    watchers; so it does after a [stopWatch] that resolves; and in every
    state the object can reach it reads false after [stopWatch] however
    that call ends. *)
Theorem watch_flag_false_after_start_and_stop W s :
  isWatching (startWatch W s).2 = false
  /\ (forall paths, (stopWatch W s).1 = Resolved paths ->
        isWatching (stopWatch W s).2 = false)
  /\ (reachable W s -> isWatching (stopWatch W s).2 = false).
Proof.
  split; [by rewrite startWatch_eq|]. split.
  - apply stopWatch_resolved_flag.
  - intros Hr. apply (reachable_flag_false W). by constructor.
Qed.

Lemma watch_flag_false_after_start_and_stop_witness :
  isWatching (stopWatch demoWorld demoKit_running).2 = false
  /\ isWatching
       (stopWatch demoWorld
          (startWatch demoWorld
             (addProject demoWorld Localkit_new "/tmp/app").2).2).2 = false.
Proof.
  split.
  - apply (proj1 (proj2 (watch_flag_false_after_start_and_stop
                            demoWorld demoKit_running)) ["/tmp/app"]).
    reflexivity.
  - apply (proj2 (proj2 (watch_flag_false_after_start_and_stop
             demoWorld
             (startWatch demoWorld
                (addProject demoWorld Localkit_new "/tmp/app").2).2))).
    apply reach_startWatch.
    apply (reach_addProject demoWorld Localkit_new "/tmp/app").
    apply reach_new.
Defined.

(** ** Reconciliation: [setProjects] *)

Lemma Q_all_resolved_inv {A} (ps : list (promise A)) (vs : list A) :
  Q_all ps = Resolved vs -> ps = Resolved <$> vs.
Proof.
  unfold Q_all. destruct (first_rejection ps); [done|].
  destruct (all_values ps) as [vs'|] eqn:Hv; [|done]. intros [= <-].
  revert vs' Hv. induction ps as [|[a|e|] ps IH]; intros vs' Hv; simplify_eq/=.
  - done.
  - destruct (all_values ps) as [ws|]; simplify_eq/=. f_equal. by apply IH.
Qed.

Lemma first_rejection_elem {A} (ps : list (promise A)) :
  is_Some (first_rejection ps) <-> exists e, @Rejected A e ∈ ps.
Proof.
  induction ps as [|[a|e|] ps IH]; cbn [first_rejection].
  - split; [by intros [? ?]|]. intros [e He]. by apply elem_of_nil in He.
  - rewrite IH. split; intros [e He]; exists e; [by right|].
    by apply elem_of_cons in He as [?|?].
  - split; [|by eexists]. intros _. exists e. by left.
  - rewrite IH. split; intros [e He]; exists e; [by right|].
    by apply elem_of_cons in He as [?|?].
Qed.

Lemma Q_all_rejected {A} (ps : list (promise A)) (e : error) :
  Q_all ps = Rejected e <-> first_rejection ps = Some e.
Proof.
  unfold Q_all. destruct (first_rejection ps) as [e'|].
  - split; by intros [= ->].
  - by destruct (all_values ps).
Qed.

Lemma run_ops_length W ops s : length (run_ops W s ops).1 = length ops.
Proof.
  revert s. induction ops as [|o ops IH]; intros s; [done|].
  cbn [run_ops]. destruct (run_op W s o) as [r s1]. specialize (IH s1).
  destruct (run_ops W s1 ops). cbn in *. by f_equal.
Qed.

Lemma getProjects_ids_resolved W pathList resolved :
  getProjects_ids W pathList = Resolved resolved ->
  forall p projectId,
    (p, projectId) ∈ resolved <->
    p ∈ pathList /\ getLocalProjectId W p = Resolved projectId.
Proof.
  unfold getProjects_ids. intros H%Q_all_resolved_inv.
  revert resolved H.
  induction pathList as [|q pl IH]; intros resolved H p projectId.
  - destruct resolved; [|done]. rewrite !elem_of_nil.
    split; [done|by intros [? ?]].
  - destruct resolved as [|[q' i'] resolved]; [done|].
    rewrite !fmap_cons in H. injection H as Hq Hrest.
    rewrite !elem_of_cons, (IH _ Hrest).
    destruct (getLocalProjectId W q) as [i| |] eqn:Hi; simplify_eq/=.
    split.
    + intros [[= -> ->]|[? ?]]; [by auto|by auto].
    + intros [[->|Hin] Hid]; [left; congruence|by right].
Qed.

Lemma run_ops_state W ops s : (run_ops W s ops).2 = state_after W s ops.
Proof.
  revert s. induction ops as [|o ops IH]; intros s; [done|].
  cbn [run_ops state_after foldl]. destruct (run_op W s o) as [r s1].
  specialize (IH s1). by destruct (run_ops W s1 ops).
Qed.

Lemma run_ops_outcome W ops s (i : nat) (o : registry_op) :
  ops !! i = Some o ->
  (run_ops W s ops).1 !! i
  = Some (run_op W (state_after W s (take i ops)) o).1.
Proof.
  revert s i. induction ops as [|o' ops IH]; intros s i Hi; [done|].
  cbn [run_ops]. destruct (run_op W s o') as [r s1] eqn:Ho'.
  specialize (IH s1). destruct (run_ops W s1 ops) as [rs s2].
  destruct i as [|i]; cbn in Hi.
  - simplify_eq. cbn. by rewrite Ho'.
  - cbn [fst lookup list_lookup take state_after foldl].
    rewrite Ho'. cbn [snd]. by apply IH.
Qed.

(** C6, as amended.  [setProjects] first resolves the ids of all listed
    paths and, if one of them fails, fails with that error and touches
    nothing.  Otherwise it starts a registration for every listed path whose
    id has no entry and an unregistration for every registered path absent
    from the list, and carries out every one of them: each operation runs on
    the object its predecessors left, whether they failed or not, its
    outcome is that of the operation there, and the object at the end is the
    one after the last of them.  The call is rejected exactly when one of
    the operations is rejected; what it then reports is the error of the
    first rejected operation alone. *)
Theorem setProjects_reports_first_failure W s pathList :
  (forall e, getProjects_ids W pathList = Rejected e ->
     setProjects W s pathList = (Rejected e, s))
  /\ (forall resolved, getProjects_ids W pathList = Resolved resolved ->
      let ops := setProjects_ops s pathList resolved in
      (forall p, OpAdd p ∈ ops <->
         p ∈ pathList
         /\ exists projectId, getLocalProjectId W p = Resolved projectId
                              /\ projects s !! projectId = None)
      /\ (forall p, OpRemove p ∈ ops <->
            (p ∉ pathList)
            /\ exists projectId project,
                 projects s !! projectId = Some project /\ path project = p)
      /\ setProjects W s pathList
         = (Q_all (run_ops W s ops).1, (run_ops W s ops).2)
      /\ length (run_ops W s ops).1 = length ops
      /\ (is_rejected (setProjects W s pathList).1 = true <->
          exists e, Rejected e ∈ (run_ops W s ops).1)
      /\ (forall e, (setProjects W s pathList).1 = Rejected e <->
            first_rejection (run_ops W s ops).1 = Some e)
      /\ (forall i o, ops !! i = Some o ->
            (run_ops W s ops).1 !! i
            = Some (run_op W (state_after W s (take i ops)) o).1)
      /\ (setProjects W s pathList).2 = state_after W s ops)
  /\ (forall p e', p ∈ pathList -> getLocalProjectId W p = Rejected e' ->
        exists e, setProjects W s pathList = (Rejected e, s)).
Proof.
  assert (forall e, getProjects_ids W pathList = Rejected e ->
            setProjects W s pathList = (Rejected e, s)) as Hfail.
  { intros e He. unfold setProjects. by rewrite He. }
  split; [exact Hfail|]. split.
  2:{ intros p e' Hp He'.
      assert (is_Some (first_rejection
                (map (fun p => promise_map (fun projectId => (p, projectId))
                                           (getLocalProjectId W p)) pathList)))
        as [e He].
      { apply first_rejection_elem. exists e'. apply list_elem_of_In, in_map_iff.
        exists p. split; [by rewrite He'|by apply list_elem_of_In]. }
      exists e. apply Hfail. unfold getProjects_ids, Q_all. by rewrite He. }
  intros resolved Hres ops.
  assert (setProjects W s pathList
          = (Q_all (run_ops W s ops).1, (run_ops W s ops).2)) as Heq.
  { unfold setProjects. rewrite Hres. fold ops. by destruct (run_ops W s ops). }
  split; [|split; [|split; [done|split; [apply run_ops_length|
    split; [|split; [|split]]]]]].
  - intros p. unfold ops, setProjects_ops. rewrite elem_of_app. split.
    + intros [Hin|Hin].
      * apply list_elem_of_fmap in Hin as ([q i] & [= ->] & Hin).
        apply elem_of_filter_bool in Hin as [Hin Hnone].
        apply bool_decide_eq_true_1 in Hnone.
        apply (getProjects_ids_resolved W _ _ Hres) in Hin as [? ?].
        split; [done|]. by exists i.
      * by apply list_elem_of_fmap in Hin as (? & [=] & _).
    + intros (Hin & i & Hi & Hnone). left.
      apply list_elem_of_fmap. exists (p, i). split; [done|].
      apply elem_of_filter_bool. split.
      * by apply (getProjects_ids_resolved W _ _ Hres).
      * by apply bool_decide_eq_true_2.
  - intros p. unfold ops, setProjects_ops. rewrite elem_of_app. split.
    + intros [Hin|Hin].
      * by apply list_elem_of_fmap in Hin as (? & [=] & _).
      * apply list_elem_of_fmap in Hin as ([i project] & [= ->] & Hin).
        apply elem_of_filter_bool in Hin as [Hin Hout].
        apply bool_decide_eq_true_1 in Hout.
        apply elem_of_map_to_list in Hin. split; [done|]. by exists i, project.
    + intros (Hout & i & project & Hp & <-). right.
      apply list_elem_of_fmap. exists (i, project). split; [done|].
      apply elem_of_filter_bool. split.
      * by apply elem_of_map_to_list.
      * by apply bool_decide_eq_true_2.
  - rewrite Heq. cbn [fst]. rewrite <- first_rejection_elem.
    unfold Q_all. destruct (first_rejection _) as [e|]; cbn.
    + split; [by eexists|done].
    + destruct (all_values _); cbn; split; try done; by intros [? ?].
  - intros e. rewrite Heq. cbn [fst]. apply Q_all_rejected.
  - intros i o Hi. by apply run_ops_outcome.
  - rewrite Heq. cbn [snd]. apply run_ops_state.
Qed.

Lemma setProjects_reports_first_failure_witness :
  (setProjects world_one_www Localkit_new reconcile_list).1
  = Rejected (MissingContentRoot "/tmp/nowww")
  /\ (setProjects world_one_www Localkit_new reconcile_list).2
     = state_after world_one_www Localkit_new
         [OpAdd "/tmp/app"; OpAdd "/tmp/nowww"; OpAdd "/tmp/empty"].
Proof.
  destruct (proj1 (proj2 (setProjects_reports_first_failure
                            world_one_www Localkit_new reconcile_list))
              [("/tmp/app", "P1"); ("/tmp/nowww", "P3"); ("/tmp/empty", "P4")]
              eq_refl)
    as (_ & _ & _ & _ & _ & Hfirst & _ & Hstate).
  split; [|exact Hstate]. apply Hfirst. reflexivity.
Defined.

(** A failed operation does not stop the ones after it: the first
    registration of the batch is rejected, the second one still files its
    entry, and the call reports the first one's error. *)
Lemma setProjects_continues_after_failure :
  (setProjects world_one_www Localkit_new ["/tmp/nowww"; "/tmp/app"]).1
  = Rejected (MissingContentRoot "/tmp/nowww")
  /\ setProjects_outcomes world_one_www Localkit_new ["/tmp/nowww"; "/tmp/app"]
     = [Rejected (MissingContentRoot "/tmp/nowww"); Resolved "P1"]
  /\ Object_keys
       (projects (setProjects world_one_www Localkit_new
                    ["/tmp/nowww"; "/tmp/app"]).2) = ["P1"].
Proof. by vm_compute. Qed.

(** One failed id resolution stops the whole batch: nothing is registered
    and the entry absent from the list stays. *)
Lemma setProjects_aborts_on_identity_failure :
  setProjects demoWorld demoKit ["/tmp/lib"; "/tmp/offline"]
  = (Rejected "identity service unavailable", demoKit).
Proof. reflexivity. Qed.

(** C6, as stated, fails: the report of a failed [setProjects] is a single
    error, from which the per-item outcomes cannot be read.  With the same
    list and registry, two worlds that differ in one directory give the same
    report and different outcomes. *)
Lemma setProjects_report_hides_item_outcomes : ~ reports_per_item_outcomes.
Proof.
  intros [decode Hdec].
  pose proof (Hdec world_one_www Localkit_new reconcile_list) as H1.
  pose proof (Hdec world_two_www Localkit_new reconcile_list) as H2.
  assert ((setProjects world_one_www Localkit_new reconcile_list).1
          = Rejected (MissingContentRoot "/tmp/nowww")) as E1 by by vm_compute.
  assert ((setProjects world_two_www Localkit_new reconcile_list).1
          = Rejected (MissingContentRoot "/tmp/nowww")) as E2 by by vm_compute.
  assert (setProjects_outcomes world_one_www Localkit_new reconcile_list
          = [Resolved "P1"; Rejected (MissingContentRoot "/tmp/nowww");
             Rejected (MissingContentRoot "/tmp/empty")]) as O1
    by by vm_compute.
  assert (setProjects_outcomes world_two_www Localkit_new reconcile_list
          = [Resolved "P1"; Rejected (MissingContentRoot "/tmp/nowww");
             Resolved "P4"]) as O2
    by by vm_compute.
  rewrite E1, O1 in H1. rewrite E2, O2 in H2.
  specialize (H1 eq_refl). specialize (H2 eq_refl). congruence.
Qed.

(** ** The pairing-key store: [clearPairing] *)

Lemma JSON_stringify_empty : JSON_stringify ∅ = "{}".
Proof. reflexivity. Qed.

(** C8. [clearPairing] empties the in-memory map whatever happens to the
    file; what it hands to the file system is the text of the emptied map,
    the whole file; it is rejected exactly when the write fails, with the
    write's error, and the map stays empty then; when the write succeeds it
    resolves and the file holds the empty map. *)
Theorem clearPairing_resets_before_persisting W s disk :
  (clearPairing W s disk).1.2 = set_pairingKeys ∅ s
  /\ pairingKeys (clearPairing W s disk).1.2 = ∅
  /\ match fs_writeFile W (PAIRING_KEYS_FILE W) (JSON_stringify ∅) with
     | Some (e, _) => (clearPairing W s disk).1.1 = Rejected e
     | None =>
         (clearPairing W s disk).1.1 = Resolved tt
         /\ (clearPairing W s disk).2 !! PAIRING_KEYS_FILE W = Some "{}"
         /\ forall f, f <> PAIRING_KEYS_FILE W ->
              (clearPairing W s disk).2 !! f = disk !! f
     end.
Proof.
  unfold clearPairing. cbn [pairingKeys set_pairingKeys].
  destruct (fs_writeFile W (PAIRING_KEYS_FILE W) (JSON_stringify ∅))
    as [[e remains]|]; cbn; [done|].
  split; [done|]. split; [done|]. split; [done|]. split.
  - by rewrite lookup_insert_eq.
  - intros f Hf. by rewrite lookup_insert_ne.
Qed.

(** With keys in memory and a disk that refuses the write: rejected, and
    the keys are gone all the same. *)
Lemma clearPairing_failed_write_example :
  (clearPairing (demoWorld_on demo_files true) demoKit_paired ∅).1
  = (Rejected "EACCES", set_pairingKeys ∅ demoKit_paired)
  /\ pairingKeys demoKit_paired <> ∅.
Proof. split; [reflexivity|]. by vm_compute. Qed.

(** ** The beacon: [_sendBeacon] *)

(** C9. When no listener is bound, the broadcast step logs the condition,
    stops the transmitter (the armed timer is cleared, the handle dropped
    and the running flag lowered) and sends nothing: it ends in the
    exception of the second port lookup, before any socket is opened. *)
Theorem sendBeacon_without_listener W s :
  server_port s = None ->
  exists s' fx,
    _sendBeacon W s = (Throws, s', ConsoleError NoPortMessage :: fx)
    /\ (forall a port m, UdpSend a port m ∉ ConsoleError NoPortMessage :: fx)
    /\ _interval s' = None
    /\ (forall h, _interval s = Some h ->
          fx = [ClearInterval h] /\ beaconTransmitterRunning s' = false)
    /\ (_interval s = None -> fx = [] /\ s' = s).
Proof.
  intros Hport. unfold _sendBeacon, stopBeaconTransmitter. rewrite Hport.
  destruct (_interval s) as [h|] eqn:Hi.
  - eexists _, _. unfold _getServerInfo, server_port. cbn [server].
    fold (server_port s). rewrite Hport. split; [done|].
    split.
    { intros a port m Hin. repeat (apply elem_of_cons in Hin as [?|Hin]; [done|]).
      by apply elem_of_nil in Hin. }
    split; [done|]. split; [|done]. by intros ? [= <-].
  - eexists _, _. unfold _getServerInfo. rewrite Hport. split; [done|].
    split.
    { intros a port m Hin. repeat (apply elem_of_cons in Hin as [?|Hin]; [done|]).
      by apply elem_of_nil in Hin. }
    done.
Qed.

Lemma sendBeacon_without_listener_witness :
  exists s' fx,
    _sendBeacon demoWorld demoKit_beacon
    = (Throws, s', ConsoleError NoPortMessage :: fx)
    /\ (forall a port m, UdpSend a port m ∉ ConsoleError NoPortMessage :: fx)
    /\ _interval s' = None
    /\ (forall h, _interval demoKit_beacon = Some h ->
          fx = [ClearInterval h] /\ beaconTransmitterRunning s' = false)
    /\ (_interval demoKit_beacon = None -> fx = [] /\ s' = demoKit_beacon).
Proof. apply (sendBeacon_without_listener demoWorld demoKit_beacon). reflexivity. Defined.

(** With a listener bound the step sends once to every broadcast address. *)
Lemma sendBeacon_with_listener_example :
  exists m,
    _sendBeacon demoWorld (demoKit_listening 8001)
    = (Returns, demoKit_listening 8001,
       [UdpSend "192.168.0.255" 41327 m; SocketClose "192.168.0.255";
        UdpSend "10.0.0.255" 41327 m; SocketClose "10.0.0.255"])
    /\ info_port m = 8001.
Proof. eexists. split; reflexivity. Qed.

(** ** The containment guard: [readProjectFile] *)

(** The guard is a test on strings: it lets a file through when the text of
    its resolved path begins with the text of the resolved root. *)
Lemma outside_project_prefix W projectPath filePath :
  outside_project W projectPath filePath
  = negb (JS.startsWith (Path.resolve (cwd W) [projectPath])
                        (Path.resolve (cwd W) [filePath])).
Proof. unfold outside_project. by rewrite indexOf_zero. Qed.

(** A rejected request never reaches the file system. *)
Lemma readProjectFile_rejects_before_fs W s projectId project filePath :
  projects s !! projectId = Some project ->
  outside_project W (path project) (requested (path project) filePath) = true ->
  readProjectFile W s projectId filePath = (Rejected PathTraversal, []).
Proof.
  intros Hp Hout. unfold readProjectFile. rewrite Hp.
  fold (requested (path project) filePath). by rewrite Hout.
Qed.

(** Every file-system call is on the requested path, after the guard let
    it through. *)
Lemma readProjectFile_fs_after_guard W s projectId filePath :
  (readProjectFile W s projectId filePath).2 <> [] ->
  exists project,
    projects s !! projectId = Some project
    /\ outside_project W (path project) (requested (path project) filePath)
       = false
    /\ head (readProjectFile W s projectId filePath).2
       = Some (FsExists (requested (path project) filePath)).
Proof.
  unfold readProjectFile.
  destruct (projects s !! projectId) as [project|]; [|by intros []].
  fold (requested (path project) filePath).
  destruct (outside_project W _ _) eqn:Hout; [by intros []|].
  intros _. exists project.
  split; [done|]. split; [done|].
  destruct (fs_exists W _); [|done]. cbn [negb].
  by destruct (fs_isDirectory W _).
Qed.

(** The two requests of the specification, on the project at [/tmp/app]. *)
Lemma readProjectFile_examples :
  readProjectFile demoWorld demoKit "P1" "../../etc/passwd"
  = (Rejected PathTraversal, [])
  /\ readProjectFile demoWorld demoKit "P1" "./index.html"
     = (Resolved "data of /tmp/app/index.html",
        [FsExists "/tmp/app/index.html"; FsLstat "/tmp/app/index.html";
         FsReadFile "/tmp/app/index.html"])
  /\ readProjectFile demoWorld demoKit "P1" "/www/index.html"
     = (Resolved "data of /tmp/app/www/index.html",
        [FsExists "/tmp/app/www/index.html"; FsLstat "/tmp/app/www/index.html";
         FsReadFile "/tmp/app/www/index.html"]).
Proof. by vm_compute. Qed.

(** C1, on the code.  For the project at [/tmp/app] the request
    [../app2/secret] resolves to [/tmp/app2/secret], which does not lie
    within the root; the guard lets it through because the text
    [/tmp/app2/secret] begins with the text [/tmp/app], and the file of the
    neighbouring directory is read and returned. *)
Theorem readProjectFile_accepts_sibling_directory :
  Path.resolve (cwd demoWorld) [requested "/tmp/app" "../app2/secret"]
  = "/tmp/app2/secret"
  /\ lies_within "/tmp/app" "/tmp/app2/secret" = false
  /\ spec_outside_project demoWorld "/tmp/app"
       (requested "/tmp/app" "../app2/secret") = true
  /\ outside_project demoWorld "/tmp/app"
       (requested "/tmp/app" "../app2/secret") = false
  /\ readProjectFile demoWorld demoKit "P1" "../app2/secret"
     = (Resolved "data of /tmp/app2/secret",
        [FsExists "/tmp/app2/secret"; FsLstat "/tmp/app2/secret";
         FsReadFile "/tmp/app2/secret"]).
Proof. by vm_compute. Qed.

(** *** What the guard does get right

    With an absolute working directory every resolved path is a slash
    followed by clean components, and a file whose components extend those
    of the root passes the guard: whatever is rejected lies outside. *)

Lemma string_app_assoc (a b c : string) : (a +:+ b) +:+ c = a +:+ (b +:+ c).
Proof.
  induction a as [|x a IH]; [done|].
  change (String x ((a +:+ b) +:+ c) = String x (a +:+ (b +:+ c))).
  by f_equal.
Qed.

Lemma string_app_nil_r (a : string) : a +:+ "" = a.
Proof.
  induction a as [|x a IH]; [done|].
  change (String x (a +:+ "") = String x a). by f_equal.
Qed.

Lemma split_slash_no_slash (s : string) :
  Forall (fun c => JS.no_slash c = true) (JS.split_slash s).
Proof.
  induction s as [|c r IH]; [by repeat constructor|].
  cbn [JS.split_slash]. case_bool_decide as Hc.
  - by constructor.
  - pose proof (split_slash_nonempty r) as Hne.
    destruct (JS.split_slash r) as [|h t]; [done|].
    apply Forall_cons in IH as [Hh Ht]. constructor; [|done].
    cbn [JS.no_slash]. rewrite Hh. by rewrite bool_decide_eq_false_2.
Qed.

Lemma segments_clean (s : string) : Forall clean (Path.segments s).
Proof.
  unfold Path.segments. pose proof (split_slash_no_slash s) as H.
  induction H as [|c l Hc _ IH]; [constructor|].
  cbn [List.filter]. destruct (Path.nonempty c) eqn:Hn; [|done].
  by constructor.
Qed.

Lemma normalizeArray_scan_clean (parts : list string) :
  Forall clean parts -> Forall clean (Path.normalizeArray_scan parts).1.
Proof.
  induction 1 as [|c l Hc _ IH]; [constructor|].
  cbn [Path.normalizeArray_scan].
  destruct (Path.normalizeArray_scan l) as [kept up]. cbn [fst] in *.
  repeat case_bool_decide; try done. destruct up; [by constructor|done].
Qed.

Lemma split_join_slash (segs : list string) :
  Forall clean segs -> segs <> [] ->
  JS.split_slash (JS.join_slash segs) = segs.
Proof.
  induction 1 as [|c l [_ Hc] Hl IH]; [done|]. intros _.
  destruct l as [|d l].
  - cbn. by apply no_slash_split.
  - change (JS.join_slash (c :: d :: l))
      with (c +:+ String JS.slash (JS.join_slash (d :: l))).
    rewrite split_slash_app by done. f_equal. by apply IH.
Qed.

Lemma segments_rooted_join (segs : list string) :
  Forall clean segs ->
  Path.segments ("/" +:+ JS.join_slash segs) = segs.
Proof.
  intros Hc. unfold Path.segments.
  change ("/" +:+ JS.join_slash segs)
    with (String JS.slash (JS.join_slash segs)).
  rewrite split_slash_cons_slash. cbn [List.filter Path.nonempty].
  destruct segs as [|c l]; [done|].
  rewrite split_join_slash by done.
  induction Hc as [|x l' [Hx _] _ IH]; [done|].
  cbn [List.filter]. by rewrite Hx, IH.
Qed.

Lemma join_slash_prefix (a t : list string) :
  exists r, JS.join_slash (a ++ t) = JS.join_slash a +:+ r.
Proof.
  induction a as [|x a IH]; [by eexists|].
  destruct a as [|y a].
  - destruct t as [|z t].
    + exists "". cbn. by rewrite string_app_nil_r.
    + by eexists.
  - destruct IH as [r Hr]. exists r.
    change (JS.join_slash ((x :: y :: a) ++ t))
      with (x +:+ String JS.slash (JS.join_slash ((y :: a) ++ t))).
    rewrite Hr.
    change (JS.join_slash (x :: y :: a))
      with (x +:+ String JS.slash (JS.join_slash (y :: a))).
    by rewrite string_app_assoc.
Qed.

Lemma resolve_absolute W (p : string) :
  Path.isAbsolute (cwd W) = true ->
  exists segs,
    Forall clean segs
    /\ Path.resolve (cwd W) [p] = "/" +:+ JS.join_slash segs.
Proof.
  intros Habs. unfold Path.resolve.
  change (rev [p] ++ [cwd W]) with [p; cwd W].
  assert (Path.nonempty (cwd W) = true) as Hne.
  { by destruct (cwd W). }
  assert (exists rp, Path.resolve_loop [p; cwd W] "" false = (rp, true))
    as [rp ->].
  { cbn [Path.resolve_loop]. destruct (Path.nonempty p).
    - destruct (Path.isAbsolute p) eqn:Hp.
      + eexists. by destruct [cwd W].
      + rewrite Hne, Habs. by eexists.
    - rewrite Hne, Habs. by eexists. }
  cbn [negb]. eexists. split; [|done].
  unfold Path.normalizeArray.
  pose proof (normalizeArray_scan_clean _ (segments_clean rp)) as H.
  by destruct (Path.normalizeArray_scan (Path.segments rp)).
Qed.

(** A file within the root is never turned away. *)
Lemma guard_accepts_contained W projectPath filePath :
  Path.isAbsolute (cwd W) = true ->
  spec_outside_project W projectPath filePath = false ->
  outside_project W projectPath filePath = false.
Proof.
  intros Habs. rewrite outside_project_prefix.
  unfold spec_outside_project, lies_within.
  destruct (resolve_absolute W projectPath Habs) as (rs & Hrs & ->).
  destruct (resolve_absolute W filePath Habs) as (fs & Hfs & ->).
  rewrite !segments_rooted_join by done.
  intros H%negb_false_iff%bool_decide_eq_true_1. destruct H as [t ->].
  destruct (join_slash_prefix rs t) as [r ->].
  rewrite <- string_app_assoc. by rewrite startsWith_app.
Qed.

(** * Further properties *)

(** ** The registry *)

Lemma set_projects_same (s : Localkit) : set_projects (projects s) s = s.
Proof. by destruct s. Qed.

(** X1. Registering a path whose id is new files an entry with that path
    under the resolved id and leaves every other entry alone; the watcher
    of the new entry is tagged with the id and runs exactly when the flag
    was raised. *)
Theorem addProject_registers W s p projectId :
  getLocalProjectId W p = Resolved projectId ->
  fs_exists W (Path.join [p; "www"]) = true ->
  projects s !! projectId = None ->
  (isWatching s = true ->
   watch_run W (FileWatcher_onchange projectId FileWatcher_new)
             (Path.join [p; "www"]) = None) ->
  exists fw,
    (addProject W s p).1 = Resolved projectId
    /\ projects (addProject W s p).2 !! projectId = Some (mkProject fw p)
    /\ onchange fw = Some projectId
    /\ running fw = isWatching s
    /\ (forall other, other <> projectId ->
          projects (addProject W s p).2 !! other = projects s !! other).
Proof.
  intros Hid Hwww Hnew Hrun. unfold addProject. rewrite Hid, Hwww. cbn [negb].
  rewrite bool_decide_eq_false_2 by (rewrite Hnew; by intros [? ?]).
  destruct (isWatching s) eqn:Hflag.
  - unfold FileWatcher_run. rewrite (Hrun eq_refl). eexists. cbn.
    split; [done|]. rewrite lookup_insert_eq. split; [done|].
    split; [done|]. split; [done|]. intros other Ho.
    by rewrite lookup_insert_ne.
  - eexists. cbn. split; [done|]. rewrite lookup_insert_eq. split; [done|].
    split; [done|]. split; [done|]. intros other Ho.
    by rewrite lookup_insert_ne.
Qed.

Lemma addProject_registers_witness :
  exists fw,
    (addProject demoWorld Localkit_new "/tmp/app").1 = Resolved "P1"
    /\ projects (addProject demoWorld Localkit_new "/tmp/app").2 !! "P1"
       = Some (mkProject fw "/tmp/app")
    /\ onchange fw = Some "P1"
    /\ running fw = isWatching Localkit_new
    /\ (forall other, other <> "P1" ->
          projects (addProject demoWorld Localkit_new "/tmp/app").2 !! other
          = projects Localkit_new !! other).
Proof.
  apply (addProject_registers demoWorld Localkit_new "/tmp/app" "P1");
    [reflexivity|reflexivity|reflexivity|discriminate].
Defined.

Lemma addProject_resolved_inv W s p projectId :
  (addProject W s p).1 = Resolved projectId ->
  getLocalProjectId W p = Resolved projectId
  /\ fs_exists W (Path.join [p; "www"]) = true
  /\ is_Some (projects (addProject W s p).2 !! projectId).
Proof.
  unfold addProject.
  destruct (getLocalProjectId W p) as [i|e|]; [|done..].
  destruct (fs_exists W (Path.join [p; "www"])); [|done].
  cbn [negb]. case_bool_decide as Hreg.
  - by intros [= ->].
  - destruct (if isWatching s then _ else _) as [e|fw]; [done|].
    intros [= ->]. cbn [snd projects set_projects].
    rewrite lookup_insert_eq. split; [done|]. split; [done|]. by eexists.
Qed.

(** X2. Registering is idempotent: after a registration that resolved, the
    same registration resolves with the same id and changes nothing. *)
Theorem addProject_again W s p projectId :
  (addProject W s p).1 = Resolved projectId ->
  addProject W (addProject W s p).2 p
  = (Resolved projectId, (addProject W s p).2).
Proof.
  intros (Hid & Hwww & Hreg)%addProject_resolved_inv.
  generalize dependent (addProject W s p).2. intros s' Hreg.
  unfold addProject. rewrite Hid, Hwww. cbn [negb].
  by rewrite bool_decide_eq_true_2.
Qed.

Lemma addProject_again_witness :
  addProject demoWorld (addProject demoWorld Localkit_new "/tmp/app").2 "/tmp/app"
  = (Resolved "P1", (addProject demoWorld Localkit_new "/tmp/app").2).
Proof.
  apply (addProject_again demoWorld Localkit_new "/tmp/app" "P1"). reflexivity.
Defined.

(** X3. Unregistering a path whose id is registered: when the watcher stops
    the call resolves with the id, that entry is gone and the others stay;
    when the watcher throws the call is rejected with that error and the
    entry is kept. *)
Theorem removeProject_registered W s p projectId project :
  getLocalProjectId W p = Resolved projectId ->
  projects s !! projectId = Some project ->
  match watch_stop W (fileWatcher project) with
  | None =>
      (removeProject W s p).1 = Resolved projectId
      /\ projects (removeProject W s p).2 !! projectId = None
      /\ (forall other, other <> projectId ->
            projects (removeProject W s p).2 !! other = projects s !! other)
  | Some e => removeProject W s p = (Rejected e, s)
  end.
Proof.
  intros Hid Hp. unfold removeProject, FileWatcher_stop. rewrite Hid, Hp.
  destruct (watch_stop W (fileWatcher project)); [done|]. cbn.
  split; [done|]. rewrite lookup_delete_eq. split; [done|].
  intros other Ho. by rewrite lookup_delete_ne.
Qed.

Lemma removeProject_registered_witness :
  (removeProject demoWorld demoKit "/tmp/app").1 = Resolved "P1"
  /\ projects (removeProject demoWorld demoKit "/tmp/app").2 !! "P1" = None
  /\ (forall other, other <> "P1" ->
        projects (removeProject demoWorld demoKit "/tmp/app").2 !! other
        = projects demoKit !! other).
Proof.
  apply (removeProject_registered demoWorld demoKit "/tmp/app" "P1" demo_app);
    reflexivity.
Defined.

(** X4. Registering a new project and unregistering it again gives back
    the object as it was. *)
Theorem addProject_removeProject W s p projectId :
  getLocalProjectId W p = Resolved projectId ->
  fs_exists W (Path.join [p; "www"]) = true ->
  projects s !! projectId = None ->
  isWatching s = false ->
  watch_stop W (FileWatcher_onchange projectId FileWatcher_new) = None ->
  removeProject W (addProject W s p).2 p = (Resolved projectId, s).
Proof.
  intros Hid Hwww Hnew Hflag Hstop.
  assert (addProject W s p
          = (Resolved projectId,
             set_projects
               (<[projectId := mkProject
                     (FileWatcher_onchange projectId FileWatcher_new) p]>
                  (projects s)) s)) as ->.
  { unfold addProject. rewrite Hid, Hwww. cbn [negb].
    rewrite bool_decide_eq_false_2 by (rewrite Hnew; by intros [? ?]).
    by rewrite Hflag. }
  cbn [snd]. unfold removeProject, FileWatcher_stop.
  rewrite Hid. cbn [projects set_projects]. rewrite lookup_insert_eq.
  cbn [fileWatcher]. rewrite Hstop. f_equal.
  rewrite delete_insert_id by done. by destruct s.
Qed.

Lemma addProject_removeProject_witness :
  removeProject demoWorld (addProject demoWorld Localkit_new "/tmp/app").2
                "/tmp/app"
  = (Resolved "P1", Localkit_new).
Proof.
  apply (addProject_removeProject demoWorld Localkit_new "/tmp/app" "P1");
    reflexivity.
Defined.

(** ** [stopWatch] *)

Lemma stopWatch_fold W (m : gmap string Project)
    (l : list (string * Project)) :
  NoDup l.*1 ->
  forall (ps : gmap string Project) (promises : list (promise string)),
  (forall k v, (k, v) ∈ l -> ps !! k = Some v /\ m !! k = Some v) ->
  exists ps',
    foldl (stopWatch_step W) (ps, promises) (List.filter (running_in m) l.*1)
    = (ps', promises ++ omap (stop_promise W) l.*2)
    /\ forall k, ps' !! k = if bool_decide (k ∈ l.*1)
                           then stop_one W <$> ps !! k else ps !! k.
Proof.
  induction l as [|[k0 v0] l IH]; intros Hnd ps promises Hl.
  { exists ps. by rewrite app_nil_r. }
  rewrite fmap_cons in Hnd. apply NoDup_cons in Hnd as [Hk0 Hnd].
  cbn [fst] in Hk0.
  destruct (Hl k0 v0) as [Hps Hm]; [by left|].
  assert (forall ps1 : gmap string Project,
            (forall k, k <> k0 -> ps1 !! k = ps !! k) ->
            forall k v, (k, v) ∈ l -> ps1 !! k = Some v /\ m !! k = Some v)
    as Hrest.
  { intros ps1 Hps1 k v Hin. destruct (Hl k v) as [? ?]; [by right|].
    split; [|done]. rewrite Hps1; [done|]. intros ->. apply Hk0.
    apply list_elem_of_fmap. by exists (k0, v). }
  assert (forall k (x y : option Project),
            (if bool_decide (k ∈ ((k0, v0) :: l).*1) then x else y)
            = if bool_decide (k = k0) then x
              else if bool_decide (k ∈ l.*1) then x else y) as Hmem.
  { intros k x y. rewrite fmap_cons. cbn [fst].
    destruct (decide (k = k0)) as [->|Hne].
    - rewrite (bool_decide_eq_true_2 (k0 = k0)) by done.
      by rewrite bool_decide_eq_true_2 by (by left).
    - rewrite (bool_decide_eq_false_2 (k = k0)) by done.
      erewrite bool_decide_ext; [done|].
      rewrite elem_of_cons. split; [by intros [?|?]|by right]. }
  assert (forall ps' : gmap string Project,
            ps !! k0 = Some v0 ->
            forall new : Project,
            (forall k, ps' !! k = if bool_decide (k ∈ l.*1)
                                  then stop_one W <$> (<[k0 := new]> ps) !! k
                                  else (<[k0 := new]> ps) !! k) ->
            new = stop_one W v0 ->
            forall k, ps' !! k = if bool_decide (k ∈ ((k0, v0) :: l).*1)
                                 then stop_one W <$> ps !! k else ps !! k)
    as Hclose.
  { intros ps' _ new Hlk -> k. rewrite Hmem, Hlk.
    destruct (decide (k = k0)) as [->|Hne].
    - rewrite (bool_decide_eq_true_2 (k0 = k0)) by done.
      rewrite (bool_decide_eq_false_2 (k0 ∈ l.*1)) by done.
      by rewrite lookup_insert_eq, Hps.
    - rewrite (bool_decide_eq_false_2 (k = k0)) by done.
      by rewrite lookup_insert_ne. }
  cbn [fmap list_fmap fst snd List.filter omap list_omap].
  unfold running_in at 1. rewrite Hm.
  unfold stop_promise at 1. unfold FileWatcher_isRunning.
  destruct (running (fileWatcher v0)) eqn:Hrun.
  - cbn [foldl]. unfold stopWatch_step at 2. rewrite Hps.
    unfold FileWatcher_stop.
    destruct (watch_stop W (fileWatcher v0)) as [e|] eqn:Hw.
    + destruct (IH Hnd ps (promises ++ [Rejected e])
                  (Hrest ps (fun _ _ => eq_refl))) as (ps' & Hf & Hlk).
      exists ps'. split; [by rewrite Hf, <- app_assoc|].
      apply (Hclose ps' Hps v0); [|].
      * intros k. rewrite insert_id by done. apply Hlk.
      * unfold stop_one, stops, FileWatcher_isRunning. rewrite Hrun, Hw.
        by rewrite bool_decide_eq_false_2.
    + set (new := set_fileWatcher _ v0).
      destruct (IH Hnd (<[k0 := new]> ps) (promises ++ [Resolved (path v0)]))
        as (ps' & Hf & Hlk).
      { apply Hrest. intros k Hk. by rewrite lookup_insert_ne. }
      exists ps'. split; [by rewrite Hf, <- app_assoc|].
      apply (Hclose ps' Hps new Hlk).
      unfold stop_one, stops, FileWatcher_isRunning. rewrite Hrun, Hw.
      by rewrite bool_decide_eq_true_2.
  - destruct (IH Hnd ps promises (Hrest ps (fun _ _ => eq_refl)))
      as (ps' & Hf & Hlk).
    exists ps'. split; [done|].
    apply (Hclose ps' Hps v0); [|].
    + intros k. rewrite insert_id by done. apply Hlk.
    + unfold stop_one, stops, FileWatcher_isRunning. by rewrite Hrun.
Qed.

(** [stopWatch] in closed form: every project is treated on its own, and
    the promises are gathered in enumeration order. *)
Lemma stopWatch_eq W s :
  stopWatch W s
  = match Q_all (omap (stop_promise W) (map_to_list (projects s)).*2) with
    | Resolved projectPaths =>
        (Resolved projectPaths,
         set_isWatching false (set_projects (stop_one W <$> projects s) s))
    | Rejected e => (Rejected e, set_projects (stop_one W <$> projects s) s)
    | Pending => (Pending, set_projects (stop_one W <$> projects s) s)
    end.
Proof.
  unfold stopWatch, Object_keys.
  destruct (stopWatch_fold W (projects s) (map_to_list (projects s))
              (NoDup_fst_map_to_list _) (projects s) [])
    as (ps' & Hf & Hlk).
  { intros k v Hin. by apply elem_of_map_to_list in Hin. }
  rewrite Hf. cbn [app].
  assert (ps' = stop_one W <$> projects s) as ->; [|done].
  apply map_eq. intros k. rewrite Hlk, lookup_fmap.
  case_bool_decide as Hk; [done|].
  destruct (projects s !! k) as [v|] eqn:Hv; [|done].
  exfalso. apply Hk, list_elem_of_fmap. exists (k, v).
  split; [done|]. by apply elem_of_map_to_list.
Qed.

Lemma Q_all_fmap_Resolved {A} (vs : list A) :
  Q_all (Resolved <$> vs) = Resolved vs.
Proof.
  unfold Q_all.
  assert (first_rejection (Resolved <$> vs) = None) as ->.
  { by induction vs. }
  assert (all_values (Resolved <$> vs) = Some vs) as ->; [|done].
  induction vs as [|v vs IH]; [done|]. cbn. by rewrite IH.
Qed.

Lemma Q_all_is_rejected {A} (ps : list (promise A)) :
  is_rejected (Q_all ps) = true <-> exists e, @Rejected A e ∈ ps.
Proof.
  rewrite <- first_rejection_elem. unfold Q_all.
  destruct (first_rejection ps) as [e|]; cbn.
  - split; [by eexists|done].
  - destruct (all_values ps); cbn; split; try done; by intros [? ?].
Qed.

Lemma elem_of_registry_values (m : gmap string Project) (p : Project) :
  p ∈ (map_to_list m).*2 <-> exists projectId, m !! projectId = Some p.
Proof.
  rewrite list_elem_of_fmap. split.
  - intros ([k v] & -> & Hin). exists k. by apply elem_of_map_to_list.
  - intros [k Hk]. exists (k, p). split; [done|]. by apply elem_of_map_to_list.
Qed.

Lemma stop_promise_rejected W (l : list Project) (e : error) :
  Rejected e ∈ omap (stop_promise W) l <->
  exists p, p ∈ l /\ running (fileWatcher p) = true
            /\ watch_stop W (fileWatcher p) = Some e.
Proof.
  rewrite list_elem_of_omap. unfold stop_promise, FileWatcher_isRunning.
  split.
  - intros (p & Hin & Hp). exists p. split; [done|].
    destruct (running (fileWatcher p)); [|done].
    destruct (watch_stop W (fileWatcher p)); by simplify_eq.
  - intros (p & Hin & Hrun & Hstop). exists p. split; [done|].
    by rewrite Hrun, Hstop.
Qed.

Lemma stop_promise_all_resolved W (l : list Project) :
  (forall p, p ∈ l -> running (fileWatcher p) = true ->
             watch_stop W (fileWatcher p) = None) ->
  exists paths,
    omap (stop_promise W) l = Resolved <$> paths
    /\ forall d, d ∈ paths <->
         exists p, p ∈ l /\ running (fileWatcher p) = true /\ d = path p.
Proof.
  induction l as [|p l IH]; intros Hok.
  { exists []. split; [done|]. intros d. rewrite elem_of_nil.
    split; [done|]. intros (p & Hin & _). by apply elem_of_nil in Hin. }
  destruct IH as (paths & Hpaths & Hmem).
  { intros q Hq. apply Hok. by right. }
  cbn [omap list_omap]. unfold stop_promise at 1, FileWatcher_isRunning.
  destruct (running (fileWatcher p)) eqn:Hrun.
  - rewrite (Hok p) by (done || by left). exists (path p :: paths).
    fold (omap (stop_promise W) l). rewrite Hpaths. split; [done|].
    intros d. rewrite elem_of_cons, Hmem. split.
    + intros [->|(q & Hq & ? & ?)]; [exists p|exists q];
        (split; [by (left || right)|done]).
    + intros (q & Hq & Hqr & ->). apply elem_of_cons in Hq as [->|Hq];
        [by left|right; by exists q].
  - exists paths. fold (omap (stop_promise W) l). split; [done|].
    intros d. rewrite Hmem. split.
    + intros (q & Hq & ? & ?). exists q. split; [by right|done].
    + intros (q & Hq & Hqr & ->). apply elem_of_cons in Hq as [->|Hq];
        [congruence|by exists q].
Qed.

(** X5. When every running watcher can be stopped, [stopWatch] resolves
    with the paths of the projects that were being watched (the project
    paths, not their [www] directories), no watcher runs afterwards, no
    entry is added or dropped, and the flag reads false. *)
Theorem stopWatch_stops_all W s :
  (forall projectId p,
     projects s !! projectId = Some p ->
     running (fileWatcher p) = true ->
     watch_stop W (fileWatcher p) = None) ->
  exists paths s',
    stopWatch W s = (Resolved paths, s')
    /\ (forall d, d ∈ paths <->
          exists projectId p,
            projects s !! projectId = Some p
            /\ running (fileWatcher p) = true /\ d = path p)
    /\ (forall projectId p',
          projects s' !! projectId = Some p' ->
          running (fileWatcher p') = false)
    /\ (forall projectId,
          is_Some (projects s' !! projectId)
          <-> is_Some (projects s !! projectId))
    /\ isWatching s' = false.
Proof.
  intros Hok. rewrite stopWatch_eq.
  destruct (stop_promise_all_resolved W (map_to_list (projects s)).*2)
    as (paths & -> & Hmem).
  { intros p [k Hk]%elem_of_registry_values. by apply (Hok k). }
  rewrite Q_all_fmap_Resolved. eexists _, _. split; [done|]. split.
  - intros d. rewrite Hmem. split.
    + intros (p & [k Hk]%elem_of_registry_values & ? & ?). by exists k, p.
    + intros (k & p & Hk & ? & ?). exists p. split; [|done].
      apply elem_of_registry_values. by exists k.
  - cbn [projects set_isWatching set_projects isWatching _isWatching].
    split; [|split; [|done]].
    + intros k p'. rewrite lookup_fmap_Some. intros (p & <- & Hp).
      unfold stop_one, stops, FileWatcher_isRunning.
      destruct (running (fileWatcher p)) eqn:Hrun; [|done].
      by rewrite (Hok k p Hp Hrun), bool_decide_eq_true_2.
    + intros k. rewrite lookup_fmap. by rewrite fmap_is_Some.
Qed.

Lemma stopWatch_stops_all_witness :
  exists paths s',
    stopWatch demoWorld demoKit_two = (Resolved paths, s')
    /\ (forall d, d ∈ paths <->
          exists projectId p,
            projects demoKit_two !! projectId = Some p
            /\ running (fileWatcher p) = true /\ d = path p)
    /\ (forall projectId p',
          projects s' !! projectId = Some p' ->
          running (fileWatcher p') = false)
    /\ (forall projectId,
          is_Some (projects s' !! projectId)
          <-> is_Some (projects demoKit_two !! projectId))
    /\ isWatching s' = false.
Proof. apply (stopWatch_stops_all demoWorld demoKit_two). reflexivity. Defined.

(** X6. [stopWatch] is rejected exactly when some running watcher throws
    on [stop].  Whether it is rejected or not, every running watcher that
    could be stopped has been stopped and the others are as they were;
    after a rejection the flag is what it was. *)
Theorem stopWatch_failure W s :
  (is_rejected (stopWatch W s).1 = true <->
   exists projectId p e,
     projects s !! projectId = Some p
     /\ running (fileWatcher p) = true
     /\ watch_stop W (fileWatcher p) = Some e)
  /\ (forall projectId,
        projects (stopWatch W s).2 !! projectId
        = stop_one W <$> projects s !! projectId)
  /\ (is_rejected (stopWatch W s).1 = true ->
      _isWatching (stopWatch W s).2 = _isWatching s).
Proof.
  rewrite stopWatch_eq.
  set (ps := omap (stop_promise W) (map_to_list (projects s)).*2).
  assert (is_rejected (Q_all ps) = true <->
          exists projectId p e,
            projects s !! projectId = Some p
            /\ running (fileWatcher p) = true
            /\ watch_stop W (fileWatcher p) = Some e) as Hrej.
  { rewrite Q_all_is_rejected. unfold ps. split.
    - intros (e & (p & [k Hk]%elem_of_registry_values & ? & ?)%stop_promise_rejected).
      by exists k, p, e.
    - intros (k & p & e & Hk & ? & ?). exists e.
      apply stop_promise_rejected. exists p. split; [|done].
      apply elem_of_registry_values. by exists k. }
  destruct (Q_all ps) as [paths|e|]; cbn in *;
    (split; [done|]); (split; [intros k; by rewrite lookup_fmap|done]).
Qed.

Lemma stopWatch_failure_witness :
  is_rejected (stopWatch demoWorld_stuck demoKit_two).1 = true
  /\ _isWatching (stopWatch demoWorld_stuck demoKit_two).2
     = _isWatching demoKit_two.
Proof.
  pose proof (stopWatch_failure demoWorld_stuck demoKit_two) as (Hiff & _ & Hflag).
  assert (is_rejected (stopWatch demoWorld_stuck demoKit_two).1 = true) as Hr.
  { apply Hiff. exists "P2", (demo_watching "/tmp/lib" "P2"), "watcher busy".
    split; [reflexivity|]. split; reflexivity. }
  split; [exact Hr|exact (Hflag Hr)].
Defined.

(** In the stuck world the first watcher is stopped although the call is
    rejected. *)
Lemma stopWatch_partial_example :
  (stopWatch demoWorld_stuck demoKit_two).1 = Rejected "watcher busy"
  /\ running_in (projects (stopWatch demoWorld_stuck demoKit_two).2) "P1" = false
  /\ running_in (projects (stopWatch demoWorld_stuck demoKit_two).2) "P2" = true.
Proof. by vm_compute. Qed.

(** ** What the object's own methods keep true of the registry *)

Lemma addProject_consistent W s p :
  registry_consistent W s -> registry_consistent W (addProject W s p).2.
Proof.
  intros Hs. unfold addProject.
  destruct (getLocalProjectId W p) as [i|e|] eqn:Hid; [|done..].
  destruct (fs_exists W (Path.join [p; "www"])); [|done]. cbn [negb].
  case_bool_decide; [done|].
  assert (forall fw, onchange fw = Some i ->
            (running fw = true -> watched fw = Some (Path.join [p; "www"])) ->
            registry_consistent W
              (set_projects (<[i := mkProject fw p]> (projects s)) s)) as Hins.
  { intros fw Htag Hdir k q. cbn [projects set_projects].
    rewrite lookup_insert_Some. intros [[<- <-]|[_ Hq]]; [|by apply Hs].
    by repeat split. }
  destruct (isWatching s).
  - unfold FileWatcher_run. destruct (watch_run W _ _); [done|].
    by apply Hins.
  - by apply Hins.
Qed.

Lemma removeProject_consistent W s p :
  registry_consistent W s -> registry_consistent W (removeProject W s p).2.
Proof.
  intros Hs. unfold removeProject.
  destruct (getLocalProjectId W p) as [i|e|]; [|done..].
  destruct (projects s !! i) as [q|]; [|done].
  destruct (FileWatcher_stop W (fileWatcher q)); [done|].
  intros k r. cbn [snd projects set_projects].
  rewrite lookup_delete_Some. intros [_ Hr]. by apply Hs.
Qed.

Lemma fmap_consistent W (f : Project -> Project) s s' :
  (forall k p, entry_consistent W k p -> entry_consistent W k (f p)) ->
  projects s' = f <$> projects s ->
  registry_consistent W s -> registry_consistent W s'.
Proof.
  intros Hf Hs' Hs k p'. rewrite Hs', lookup_fmap_Some.
  intros (p & <- & Hp). by apply Hf, Hs.
Qed.

Lemma startWatch_consistent W s :
  registry_consistent W s -> registry_consistent W (startWatch W s).2.
Proof.
  apply (fmap_consistent W (start_one W)); [|by rewrite startWatch_eq].
  intros k p (Hid & Htag & Hdir). unfold start_one.
  destruct (attaches W p); by repeat split.
Qed.

Lemma stopWatch_consistent W s :
  registry_consistent W s -> registry_consistent W (stopWatch W s).2.
Proof.
  apply (fmap_consistent W (stop_one W)).
  - intros k p (Hid & Htag & Hdir). unfold stop_one.
    destruct (stops W p); by repeat split.
  - rewrite stopWatch_eq. by destruct (Q_all _).
Qed.

Lemma run_ops_consistent W ops s :
  registry_consistent W s -> registry_consistent W (run_ops W s ops).2.
Proof.
  revert s. induction ops as [|o ops IH]; intros s Hs; [done|].
  cbn [run_ops].
  assert (registry_consistent W (run_op W s o).2) as Ho.
  { destruct o; [by apply addProject_consistent
                |by apply removeProject_consistent]. }
  destruct (run_op W s o) as [r s1]. specialize (IH s1 Ho).
  by destruct (run_ops W s1 ops).
Qed.

Lemma setProjects_consistent W s pathList :
  registry_consistent W s ->
  registry_consistent W (setProjects W s pathList).2.
Proof.
  intros Hs. unfold setProjects.
  destruct (getProjects_ids W pathList) as [resolved| |]; [|done..].
  pose proof (run_ops_consistent W (setProjects_ops s pathList resolved) s Hs).
  by destruct (run_ops W s _).
Qed.

Lemma clearPairing_projects W s disk :
  projects (clearPairing W s disk).1.2 = projects s.
Proof.
  unfold clearPairing. by destruct (fs_writeFile W _ _) as [[? ?]|].
Qed.

Lemma sendBeacon_projects W s : projects (_sendBeacon W s).1.2 = projects s.
Proof.
  unfold _sendBeacon, stopBeaconTransmitter.
  destruct (server_port s); [|destruct (_interval s)];
    destruct (_getServerInfo W _); done.
Qed.

(** ** Watching one project: lookup by path *)

Lemma find_by_path_Some s projectDir projectId p :
  find_by_path s projectDir = Some (projectId, p) ->
  projects s !! projectId = Some p /\ path p = projectDir.
Proof.
  unfold find_by_path. intros Hh.
  assert ((projectId, p) ∈ List.filter
            (fun kv : string * Project => bool_decide (path kv.2 = projectDir))
            (map_to_list (projects s))) as Hin.
  { destruct (List.filter _ _) as [|x l]; [done|]. cbn in Hh.
    simplify_eq. by left. }
  apply elem_of_filter_bool in Hin as [Hin Hp].
  apply elem_of_map_to_list in Hin. by apply bool_decide_eq_true_1 in Hp.
Qed.

Lemma find_by_path_None s projectDir :
  find_by_path s projectDir = None <->
  forall projectId p, projects s !! projectId = Some p -> path p <> projectDir.
Proof.
  unfold find_by_path. split.
  - intros Hh k p Hk Hp.
    assert ((k, p) ∈ List.filter
              (fun kv : string * Project => bool_decide (path kv.2 = projectDir))
              (map_to_list (projects s))) as Hin.
    { apply elem_of_filter_bool. split; [by apply elem_of_map_to_list|].
      by apply bool_decide_eq_true_2. }
    destruct (List.filter _ _); [by apply elem_of_nil in Hin|done].
  - intros Hno. destruct (List.filter _ _) as [|[k p] l] eqn:Hl; [done|].
    exfalso.
    assert ((k, p) ∈ List.filter
              (fun kv : string * Project => bool_decide (path kv.2 = projectDir))
              (map_to_list (projects s))) as Hin by (rewrite Hl; by left).
    apply elem_of_filter_bool in Hin as [Hin Hp].
    apply elem_of_map_to_list in Hin. apply bool_decide_eq_true_1 in Hp.
    by apply (Hno k p).
Qed.

(** When the path belongs to one id only, that entry is the one found. *)
Lemma find_by_path_unique s projectId p :
  projects s !! projectId = Some p ->
  (forall other q, projects s !! other = Some q -> path q = path p ->
                   other = projectId) ->
  find_by_path s (path p) = Some (projectId, p).
Proof.
  intros Hp Huniq.
  destruct (find_by_path s (path p)) as [[k q]|] eqn:Hf.
  - apply find_by_path_Some in Hf as [Hk Hq].
    rewrite (Huniq k q Hk Hq) in Hk |- *. congruence.
  - exfalso. by apply (proj1 (find_by_path_None s (path p)) Hf projectId p).
Qed.

Lemma consistent_path_unique W s projectId p :
  registry_consistent W s ->
  projects s !! projectId = Some p ->
  forall other q, projects s !! other = Some q -> path q = path p ->
                  other = projectId.
Proof.
  intros Hs Hp other q Hq Hpath.
  destruct (Hs _ _ Hp) as (Hid & _). destruct (Hs _ _ Hq) as (Hid' & _).
  rewrite Hpath in Hid'. congruence.
Qed.

(** X9. A path that no registry entry carries is answered with
    [No such project.] by all three per-project methods, and nothing is
    changed. *)
Theorem watchProject_unknown_path W s projectDir :
  (forall projectId p, projects s !! projectId = Some p ->
                       path p <> projectDir) ->
  startWatchProject W s projectDir = (Rejected NoSuchProject, s)
  /\ stopWatchProject W s projectDir = (Rejected NoSuchProject, s)
  /\ isWatchingProject s projectDir = Rejected NoSuchProject.
Proof.
  intros Hno%find_by_path_None.
  unfold startWatchProject, stopWatchProject, isWatchingProject.
  by rewrite Hno.
Qed.

Lemma watchProject_unknown_path_witness :
  startWatchProject demoWorld demoKit "/tmp/lib" = (Rejected NoSuchProject, demoKit)
  /\ stopWatchProject demoWorld demoKit "/tmp/lib" = (Rejected NoSuchProject, demoKit)
  /\ isWatchingProject demoKit "/tmp/lib" = Rejected NoSuchProject.
Proof.
  apply (watchProject_unknown_path demoWorld demoKit "/tmp/lib").
  intros projectId p Hp.
  destruct (decide (projectId = "P1")) as [->|Hne].
  - vm_compute in Hp. by simplify_eq.
  - unfold demoKit in Hp. cbn [projects set_projects] in Hp.
    by rewrite lookup_singleton_ne in Hp.
Defined.

Lemma find_by_path_after_insert W s projectId p fw :
  registry_consistent W s ->
  projects s !! projectId = Some p ->
  find_by_path
    (set_projects (<[projectId := set_fileWatcher fw p]> (projects s)) s)
    (path p)
  = Some (projectId, set_fileWatcher fw p).
Proof.
  intros Hs Hp.
  apply (find_by_path_unique _ projectId (set_fileWatcher fw p)).
  - cbn [projects set_projects]. by rewrite lookup_insert_eq.
  - intros other q. cbn [projects set_projects path set_fileWatcher].
    rewrite lookup_insert_Some. intros [[<- _]|[_ Hq]] Hpath; [done|].
    by apply (consistent_path_unique W s projectId p Hs Hp other q).
Qed.

Lemma demo_added_consistent :
  registry_consistent demoWorld
    (addProject demoWorld Localkit_new "/tmp/app").2.
Proof.
  apply addProject_consistent. intros k p Hk. cbn in Hk.
  by rewrite lookup_empty in Hk.
Qed.

Lemma demoKit_two_consistent : registry_consistent demoWorld demoKit_two.
Proof.
  intros k p. unfold demoKit_two. cbn [projects set_projects].
  rewrite lookup_insert_Some. intros [[<- <-]|[_ Hp]]; [by repeat split|].
  apply lookup_singleton_Some in Hp as [<- <-]. by repeat split.
Qed.

(** X10. Starting the watcher of a registered project by its path: a
    watcher that already runs is left alone and the call resolves; an idle
    one is started on the project's [www] directory, after which
    [isWatchingProject] answers true and no other entry has changed; if it
    throws, the call is rejected with that error and nothing has changed. *)
Theorem startWatchProject_registered W s projectId p :
  registry_consistent W s ->
  projects s !! projectId = Some p ->
  projectId <> "" ->
  let watchDir := Path.join [path p; "www"] in
  if running (fileWatcher p)
  then startWatchProject W s (path p) = (Resolved watchDir, s)
  else match watch_run W (fileWatcher p) watchDir with
       | Some e => startWatchProject W s (path p) = (Rejected e, s)
       | None =>
           (startWatchProject W s (path p)).1 = Resolved watchDir
           /\ isWatchingProject (startWatchProject W s (path p)).2 (path p)
              = Resolved true
           /\ (forall other, other <> projectId ->
                 projects (startWatchProject W s (path p)).2 !! other
                 = projects s !! other)
       end.
Proof.
  intros Hs Hp Hne watchDir.
  pose proof (find_by_path_unique s projectId p Hp
                (consistent_path_unique W s projectId p Hs Hp)) as Hfind.
  unfold startWatchProject. rewrite Hfind.
  rewrite bool_decide_eq_false_2 by done.
  unfold FileWatcher_isRunning, FileWatcher_run. fold watchDir.
  destruct (running (fileWatcher p)) eqn:Hrun; [done|]. cbn [negb].
  destruct (watch_run W (fileWatcher p) watchDir); [done|].
  cbn [fst snd]. split; [done|]. split.
  - unfold isWatchingProject.
    rewrite (find_by_path_after_insert W s projectId p _ Hs Hp).
    by rewrite bool_decide_eq_false_2.
  - intros other Ho. cbn [projects set_projects]. by rewrite lookup_insert_ne.
Qed.

Lemma startWatchProject_registered_witness :
  (startWatchProject demoWorld
     (addProject demoWorld Localkit_new "/tmp/app").2 "/tmp/app").1
  = Resolved "/tmp/app/www".
Proof.
  pose proof (startWatchProject_registered demoWorld
                (addProject demoWorld Localkit_new "/tmp/app").2 "P1"
                (mkProject (FileWatcher_onchange "P1" FileWatcher_new) "/tmp/app")
                demo_added_consistent
                eq_refl ltac:(discriminate)) as H.
  cbn [running fileWatcher FileWatcher_onchange FileWatcher_new] in H.
  exact (proj1 H).
Defined.

(** X11. Stopping the watcher of a registered project by its path: an idle
    watcher is left alone and the call resolves; a running one is stopped,
    after which [isWatchingProject] answers false and no other entry has
    changed; if it throws, the call is rejected and nothing has changed. *)
Theorem stopWatchProject_registered W s projectId p :
  registry_consistent W s ->
  projects s !! projectId = Some p ->
  projectId <> "" ->
  let watchDir := Path.join [path p; "www"] in
  if running (fileWatcher p)
  then match watch_stop W (fileWatcher p) with
       | Some e => stopWatchProject W s (path p) = (Rejected e, s)
       | None =>
           (stopWatchProject W s (path p)).1 = Resolved watchDir
           /\ isWatchingProject (stopWatchProject W s (path p)).2 (path p)
              = Resolved false
           /\ (forall other, other <> projectId ->
                 projects (stopWatchProject W s (path p)).2 !! other
                 = projects s !! other)
       end
  else stopWatchProject W s (path p) = (Resolved watchDir, s).
Proof.
  intros Hs Hp Hne watchDir.
  pose proof (find_by_path_unique s projectId p Hp
                (consistent_path_unique W s projectId p Hs Hp)) as Hfind.
  unfold stopWatchProject. rewrite Hfind.
  rewrite bool_decide_eq_false_2 by done.
  unfold FileWatcher_isRunning, FileWatcher_stop. fold watchDir.
  destruct (running (fileWatcher p)) eqn:Hrun; [|done].
  destruct (watch_stop W (fileWatcher p)); [done|].
  cbn [fst snd]. split; [done|]. split.
  - unfold isWatchingProject.
    rewrite (find_by_path_after_insert W s projectId p _ Hs Hp).
    by rewrite bool_decide_eq_false_2.
  - intros other Ho. cbn [projects set_projects]. by rewrite lookup_insert_ne.
Qed.

Lemma stopWatchProject_registered_witness :
  (stopWatchProject demoWorld demoKit_two "/tmp/lib").1
  = Resolved "/tmp/lib/www".
Proof.
  pose proof (stopWatchProject_registered demoWorld demoKit_two "P2"
                (demo_watching "/tmp/lib" "P2")
                demoKit_two_consistent eq_refl ltac:(discriminate)) as H.
  exact (proj1 H).
Defined.

(** X12. An entry filed under the empty id cannot be addressed by its
    path: the three methods answer as if the project were unknown. *)
Theorem watchProject_empty_id W s p :
  projects s !! "" = Some p ->
  (forall other q, projects s !! other = Some q -> path q = path p ->
                   other = "") ->
  startWatchProject W s (path p) = (Rejected NoSuchProject, s)
  /\ stopWatchProject W s (path p) = (Rejected NoSuchProject, s)
  /\ isWatchingProject s (path p) = Rejected NoSuchProject.
Proof.
  intros Hp Huniq.
  unfold startWatchProject, stopWatchProject, isWatchingProject.
  by rewrite (find_by_path_unique s "" p Hp Huniq).
Qed.

Lemma watchProject_empty_id_witness :
  startWatchProject demoWorld demoKit_anonymous "/tmp/app"
  = (Rejected NoSuchProject, demoKit_anonymous)
  /\ stopWatchProject demoWorld demoKit_anonymous "/tmp/app"
     = (Rejected NoSuchProject, demoKit_anonymous)
  /\ isWatchingProject demoKit_anonymous "/tmp/app" = Rejected NoSuchProject.
Proof.
  apply (watchProject_empty_id demoWorld demoKit_anonymous demo_app).
  - reflexivity.
  - intros other q Hq _. unfold demoKit_anonymous in Hq.
    cbn [projects set_projects] in Hq.
    by apply lookup_singleton_Some in Hq as [<- _].
Defined.

Lemma startWatchProject_consistent W s projectDir :
  registry_consistent W s ->
  registry_consistent W (startWatchProject W s projectDir).2.
Proof.
  intros Hs. unfold startWatchProject.
  destruct (find_by_path s projectDir) as [[i p]|] eqn:Hf; [|done].
  apply find_by_path_Some in Hf as [Hp _].
  case_bool_decide; [done|].
  destruct (FileWatcher_isRunning (fileWatcher p)); [done|]. cbn [negb].
  unfold FileWatcher_run. destruct (watch_run W _ _); [done|].
  intros k q. cbn [snd projects set_projects]. rewrite lookup_insert_Some.
  intros [[<- <-]|[_ Hq]]; [|by apply Hs].
  destruct (Hs i p Hp) as (Hid & Htag & _). by repeat split.
Qed.

Lemma stopWatchProject_consistent W s projectDir :
  registry_consistent W s ->
  registry_consistent W (stopWatchProject W s projectDir).2.
Proof.
  intros Hs. unfold stopWatchProject.
  destruct (find_by_path s projectDir) as [[i p]|] eqn:Hf; [|done].
  apply find_by_path_Some in Hf as [Hp _].
  case_bool_decide; [done|].
  destruct (FileWatcher_isRunning (fileWatcher p)); [|done].
  unfold FileWatcher_stop. destruct (watch_stop W _); [done|].
  intros k q. cbn [snd projects set_projects]. rewrite lookup_insert_Some.
  intros [[<- <-]|[_ Hq]]; [|by apply Hs].
  destruct (Hs i p Hp) as (Hid & Htag & _). by repeat split.
Qed.

(** X7. In every state the object reaches through its own methods (the
    per-project start and stop among them), each entry is filed under the
    id its path resolves to, its change callback is tagged with that id,
    and its watcher, when it runs, watches the [www] directory below the
    entry's path. *)
Theorem reachable_registry_consistent W s :
  reachable W s -> registry_consistent W s.
Proof.
  induction 1 as [|s p _ IH|s p _ IH|s _ IH|s _ IH
                 |s pl _ IH|s disk _ IH|s _ IH|s b h srv t _ IH
                 |s d _ IH|s d _ IH|s keys _ IH].
  - intros k p Hk. cbn in Hk. by rewrite lookup_empty in Hk.
  - by apply addProject_consistent.
  - by apply removeProject_consistent.
  - by apply startWatch_consistent.
  - by apply stopWatch_consistent.
  - by apply setProjects_consistent.
  - intros k p. rewrite clearPairing_projects. apply IH.
  - intros k p. rewrite sendBeacon_projects. apply IH.
  - exact IH.
  - by apply startWatchProject_consistent.
  - by apply stopWatchProject_consistent.
  - exact IH.
Qed.

Lemma reachable_registry_consistent_witness :
  registry_consistent demoWorld
    (startWatch demoWorld (addProject demoWorld Localkit_new "/tmp/app").2).2.
Proof.
  apply reachable_registry_consistent.
  apply reach_startWatch.
  apply (reach_addProject demoWorld Localkit_new "/tmp/app").
  apply reach_new.
Defined.

(** X8. In a registry kept that way, unregistering the path of a registered
    project always settles: it removes exactly that project's entry when
    its watcher stops and is rejected with the watcher's error otherwise;
    it never stays pending. *)
Theorem unregister_known_path_settles W s projectId p :
  registry_consistent W s ->
  projects s !! projectId = Some p ->
  removeProject W s (path p)
  = match watch_stop W (fileWatcher p) with
    | None => (Resolved projectId,
               set_projects (delete projectId (projects s)) s)
    | Some e => (Rejected e, s)
    end.
Proof.
  intros Hs Hp. destruct (Hs _ _ Hp) as (Hid & _ & _).
  unfold removeProject, FileWatcher_stop. rewrite Hid, Hp.
  by destruct (watch_stop W (fileWatcher p)).
Qed.

Lemma unregister_known_path_settles_witness :
  removeProject demoWorld
    (addProject demoWorld Localkit_new "/tmp/app").2 "/tmp/app"
  = (Resolved "P1",
     set_projects
       (delete "P1" (projects (addProject demoWorld Localkit_new "/tmp/app").2))
       (addProject demoWorld Localkit_new "/tmp/app").2).
Proof.
  apply (unregister_known_path_settles demoWorld
           (addProject demoWorld Localkit_new "/tmp/app").2 "P1"
           (mkProject (FileWatcher_onchange "P1" FileWatcher_new) "/tmp/app")).
  - apply addProject_consistent. intros k p Hk. cbn in Hk.
    by rewrite lookup_empty in Hk.
  - reflexivity.
Defined.

(** ** The beacon and its timer *)

Lemma sendBeacon_bound W s port lb :
  server_port s = Some port ->
  loginBody W = Some lb ->
  _sendBeacon W s
  = (Returns, s,
     concat (map (sendBroadcast W (beacon_message W port lb))
                 (broadcastAddresses W))).
Proof.
  intros Hport Hlb.
  assert (_getServerInfo W s = Some (beacon_message W port lb)) as Hinfo.
  { unfold _getServerInfo. by rewrite Hport, Hlb. }
  unfold _sendBeacon. by rewrite Hport, Hinfo.
Qed.

Lemma elem_of_concat_map {A B} (f : A -> list B) (l : list A) (x : B) :
  x ∈ concat (map f l) <-> exists a, a ∈ l /\ x ∈ f a.
Proof.
  induction l as [|a l IH]; cbn [map concat].
  - rewrite elem_of_nil. split; [done|]. by intros (a & ?%elem_of_nil & _).
  - rewrite elem_of_app, IH. split.
    + intros [Hx|(b & Hb & Hx)]; [exists a|exists b];
        (split; [by (left || right)|done]).
    + intros (b & Hb & Hx). apply elem_of_cons in Hb as [->|Hb];
        [by left|right; by exists b].
Qed.

Lemma sendBroadcast_datagram W message a a' p m :
  UdpSend a' p m ∈ sendBroadcast W message a <->
  a' = a /\ udp_send W a = SendOk
  /\ p = beacon_send_port (config W) /\ m = message.
Proof.
  unfold sendBroadcast. destruct (udp_send W a) as [|e|e]; split.
  - intros [[= -> -> ->]|Hin]%elem_of_cons; [done|].
    apply elem_of_cons in Hin as [[=]|Hin]. by apply elem_of_nil in Hin.
  - intros (-> & _ & -> & ->). by left.
  - intros Hin. repeat (apply elem_of_cons in Hin as [[=]|Hin]).
    by apply elem_of_nil in Hin.
  - by intros (_ & [=] & _).
  - intros Hin. repeat (apply elem_of_cons in Hin as [[=]|Hin]).
    by apply elem_of_nil in Hin.
  - by intros (_ & [=] & _).
Qed.

Lemma sendBroadcast_warning W message a e :
  ConsoleWarn e ∈ sendBroadcast W message a <->
  udp_send W a = SendError e \/ udp_send W a = SendThrows e.
Proof.
  unfold sendBroadcast. destruct (udp_send W a) as [|e'|e']; split.
  - intros Hin. repeat (apply elem_of_cons in Hin as [[=]|Hin]).
    by apply elem_of_nil in Hin.
  - by intros [[=]|[=]].
  - intros [[= ->]|Hin]%elem_of_cons; [by left|].
    apply elem_of_cons in Hin as [[=]|Hin]. by apply elem_of_nil in Hin.
  - intros [[= ->]|[=]]. by left.
  - intros [[= ->]|Hin]%elem_of_cons; [by right|]. by apply elem_of_nil in Hin.
  - intros [[=]|[= ->]]. by left.
Qed.

Lemma sendBroadcast_all_ok W message (l : list string) :
  (forall a, a ∈ l -> udp_send W a = SendOk) ->
  concat (map (sendBroadcast W message) l)
  = concat (map (fun a => [UdpSend a (beacon_send_port (config W)) message;
                           SocketClose a]) l)
  /\ sent_to (concat (map (sendBroadcast W message) l)) = l.
Proof.
  induction l as [|a l IH]; intros Hok; [done|].
  destruct IH as [IH1 IH2]; [intros b Hb; apply Hok; by right|].
  cbn [map concat]. unfold sendBroadcast at 1 3.
  rewrite (Hok a) by (by left). rewrite IH1. split; [done|].
  cbn [app sent_to omap list_omap]. f_equal.
  rewrite <- IH1. exact IH2.
Qed.

(** X13. With a listener bound and a login body at hand, one broadcast
    step returns and leaves the object as it is.  A datagram goes out to
    exactly those broadcast addresses whose send succeeds, each to the
    configured port and with the same payload, which names the bound port,
    the client id and the hash of the user id; a send that fails is logged
    as a warning and touches no other address; the no-port message is not
    logged and no timer is cleared.  When every send succeeds, one datagram
    per address goes out, in the order of the addresses, and nothing is
    logged. *)
Theorem sendBeacon_one_datagram_per_address W s port lb :
  server_port s = Some port ->
  loginBody W = Some lb ->
  exists message,
    (_sendBeacon W s).1 = (Returns, s)
    /\ info_port message = port
    /\ info_userHash message = sha1_hex W (userId lb)
    /\ info_serverId message = clientId lb
    /\ (forall a p m,
          UdpSend a p m ∈ (_sendBeacon W s).2 <->
          a ∈ broadcastAddresses W /\ udp_send W a = SendOk
          /\ p = beacon_send_port (config W) /\ m = message)
    /\ (forall e,
          ConsoleWarn e ∈ (_sendBeacon W s).2 <->
          exists a, a ∈ broadcastAddresses W
                    /\ (udp_send W a = SendError e
                        \/ udp_send W a = SendThrows e))
    /\ (forall msg, ConsoleError msg ∉ (_sendBeacon W s).2)
    /\ (forall h, ClearInterval h ∉ (_sendBeacon W s).2)
    /\ ((forall a, a ∈ broadcastAddresses W -> udp_send W a = SendOk) ->
        (_sendBeacon W s).2
        = concat (map (fun a => [UdpSend a (beacon_send_port (config W))
                                         message; SocketClose a])
                      (broadcastAddresses W))
        /\ sent_to (_sendBeacon W s).2 = broadcastAddresses W
        /\ forall e, ConsoleWarn e ∉ (_sendBeacon W s).2).
Proof.
  intros Hport Hlb. exists (beacon_message W port lb).
  rewrite (sendBeacon_bound W s port lb Hport Hlb). cbn [fst snd].
  repeat (split; [done|]).
  assert (forall x, (forall a, x ∉ sendBroadcast W (beacon_message W port lb) a) ->
            x ∉ concat (map (sendBroadcast W (beacon_message W port lb))
                            (broadcastAddresses W))) as Hnone.
  { intros x Hx (a & _ & Hin)%elem_of_concat_map. by apply (Hx a). }
  split; [|split; [|split; [|split]]].
  - intros a p m. rewrite elem_of_concat_map. split.
    + intros (a' & Ha' & (-> & ? & ? & ?)%sendBroadcast_datagram). done.
    + intros (Ha & Hok & -> & ->). exists a. split; [done|].
      by apply sendBroadcast_datagram.
  - intros e. rewrite elem_of_concat_map. split.
    + intros (a & Ha & Hin%sendBroadcast_warning). by exists a.
    + intros (a & Ha & Hin). exists a. split; [done|].
      by apply sendBroadcast_warning.
  - intros msg. apply Hnone. intros a Hin. unfold sendBroadcast in Hin.
    destruct (udp_send W a);
      repeat (apply elem_of_cons in Hin as [[=]|Hin]);
      by apply elem_of_nil in Hin.
  - intros h. apply Hnone. intros a Hin. unfold sendBroadcast in Hin.
    destruct (udp_send W a);
      repeat (apply elem_of_cons in Hin as [[=]|Hin]);
      by apply elem_of_nil in Hin.
  - intros Hok.
    destruct (sendBroadcast_all_ok W (beacon_message W port lb)
                (broadcastAddresses W) Hok) as [Heq Hsent].
    split; [done|]. split; [done|].
    intros e (a & Ha & [He|He]%sendBroadcast_warning)%elem_of_concat_map;
      rewrite (Hok a Ha) in He; done.
Qed.

Lemma sendBeacon_one_datagram_per_address_witness :
  exists message,
    (_sendBeacon demoWorld (demoKit_listening 8001)).1
    = (Returns, demoKit_listening 8001)
    /\ info_port message = 8001
    /\ sent_to (_sendBeacon demoWorld (demoKit_listening 8001)).2
       = ["192.168.0.255"; "10.0.0.255"].
Proof.
  destruct (sendBeacon_one_datagram_per_address demoWorld
              (demoKit_listening 8001) 8001
              (mkLoginBody "dev-box" "client-1" "user-1") eq_refl eq_refl)
    as (message & Hret & Hport & _ & _ & _ & _ & _ & _ & Hall).
  exists message. split; [exact Hret|]. split; [exact Hport|].
  apply Hall. by intros a _.
Defined.

(** One address out of reach: the other still gets its datagram. *)
Lemma sendBeacon_lossy_example :
  exists m,
    _sendBeacon demoWorld_lossy (demoKit_listening 8001)
    = (Returns, demoKit_listening 8001,
       [UdpSend "192.168.0.255" 41327 m; SocketClose "192.168.0.255";
        ConsoleWarn "ENETUNREACH"; SocketClose "10.0.0.255"]).
Proof. by eexists. Qed.

Lemma filter_out_fresh (h : nat) (armed : list nat) :
  h ∉ armed ->
  List.filter (fun h' => negb (bool_decide (h' = h))) armed = armed.
Proof.
  induction armed as [|a armed IH]; intros Hh; [done|].
  apply not_elem_of_cons in Hh as [Hne Hh]. cbn [List.filter].
  rewrite bool_decide_eq_false_2 by done. cbn [negb]. by rewrite IH.
Qed.

(** X14. Starting the transmitter while logged in and stopping it again
    clears the timer that was armed: the armed timers are those from
    before, the handle is dropped and the running flag is lowered.  A
    second stop finds nothing to do. *)
Theorem beacon_start_stop (h : nat) (s : Localkit) (armed : list nat) :
  h ∉ armed ->
  let started := startBeaconTransmitter true h s armed in
  let stopped := stopBeaconTransmitter_call started.1.2 started.2 in
  started.1.1 = Resolved tt
  /\ beaconTransmitterRunning started.1.2 = true
  /\ stopped.1.1 = Resolved tt
  /\ stopped.2 = armed
  /\ _interval stopped.1.2 = None
  /\ beaconTransmitterRunning stopped.1.2 = false
  /\ stopBeaconTransmitter_call stopped.1.2 stopped.2 = stopped.
Proof.
  intros Hh. cbn. rewrite bool_decide_eq_true_2 by done. cbn.
  by rewrite (filter_out_fresh h armed Hh).
Qed.

Lemma beacon_start_stop_witness :
  (stopBeaconTransmitter_call
     (startBeaconTransmitter true 7 Localkit_new []).1.2
     (startBeaconTransmitter true 7 Localkit_new []).2).2 = [].
Proof.
  pose proof (beacon_start_stop 7 Localkit_new [] ltac:(apply not_elem_of_nil))
    as H.
  exact (proj1 (proj2 (proj2 (proj2 H)))).
Defined.

(** X15. Starting the transmitter twice keeps only the second handle: the
    stop that follows clears the second timer, the first one stays armed,
    and since the object no longer holds a handle no later stop clears
    it. *)
Theorem beacon_double_start_leaks (h1 h2 : nat) (s : Localkit)
    (armed : list nat) :
  h1 <> h2 -> h1 ∉ armed -> h2 ∉ armed ->
  let first := startBeaconTransmitter true h1 s armed in
  let second := startBeaconTransmitter true h2 first.1.2 first.2 in
  let stopped := stopBeaconTransmitter_call second.1.2 second.2 in
  stopped.2 = h1 :: armed
  /\ _interval stopped.1.2 = None
  /\ beaconTransmitterRunning stopped.1.2 = false
  /\ stopBeaconTransmitter_call stopped.1.2 stopped.2 = stopped.
Proof.
  intros Hne H1 H2. cbn. rewrite bool_decide_eq_true_2 by done.
  rewrite bool_decide_eq_false_2 by done. cbn.
  by rewrite (filter_out_fresh h2 armed H2).
Qed.

Lemma beacon_double_start_leaks_witness :
  (stopBeaconTransmitter_call
     (startBeaconTransmitter true 8
        (startBeaconTransmitter true 7 Localkit_new []).1.2
        (startBeaconTransmitter true 7 Localkit_new []).2).1.2
     (startBeaconTransmitter true 8
        (startBeaconTransmitter true 7 Localkit_new []).1.2
        (startBeaconTransmitter true 7 Localkit_new []).2).2).2 = [7%nat].
Proof.
  pose proof (beacon_double_start_leaks 7 8 Localkit_new []
                ltac:(discriminate) ltac:(apply not_elem_of_nil)
                ltac:(apply not_elem_of_nil)) as H.
  exact (proj1 H).
Defined.

(** ** [_getLocalIp] *)

Lemma getLocalIp_inner_eq (addresses : list NetAddress) (i : nat) :
  getLocalIp_inner addresses i (length addresses)
  = match addresses !! i with
    | Some a => if usable a then Some (na_address a) else None
    | None => None
    end.
Proof.
  assert (forall turns,
            getLocalIp_inner addresses i turns
            = match turns with
              | O => None
              | S _ => match addresses !! i with
                       | Some a => if usable a then Some (na_address a)
                                   else None
                       | None => None
                       end
              end) as H.
  { induction turns as [|turns IH]; [done|]. cbn [getLocalIp_inner].
    rewrite IH. destruct (addresses !! i) as [a|]; [|by destruct turns].
    destruct (usable a); [done|]. by destruct turns. }
  rewrite H. destruct addresses as [|a addresses]; [|done].
  by rewrite lookup_nil.
Qed.

Lemma getLocalIp_outer_found ifaces i r :
  getLocalIp_outer ifaces i = r ->
  r = "0.0.0.0"
  \/ exists j name addresses a,
       ifaces !! j = Some (name, addresses)
       /\ addresses !! (i + j)%nat = Some a
       /\ usable a = true /\ r = na_address a.
Proof.
  revert i. induction ifaces as [|[name addresses] rest IH]; intros i Hr.
  { left. by rewrite <- Hr. }
  cbn [getLocalIp_outer] in Hr. rewrite getLocalIp_inner_eq in Hr.
  destruct (addresses !! i) as [a|] eqn:Ha.
  - destruct (usable a) eqn:Hu.
    + right. exists 0%nat, name, addresses, a. rewrite Nat.add_0_r. by subst.
    + destruct (IH _ Hr) as [?|(j & n & ad & b & Hj & Hb & ? & ?)]; [by left|].
      right. exists (S j), n, ad, b. rewrite <- Nat.add_succ_comm. by repeat split.
  - destruct (IH _ Hr) as [?|(j & n & ad & b & Hj & Hb & ? & ?)]; [by left|].
    right. exists (S j), n, ad, b. rewrite <- Nat.add_succ_comm. by repeat split.
Qed.

(** X16. [_getLocalIp] answers [0.0.0.0] or the address of an entry that
    is IPv4 and not internal; the entry it answers with sits, in the array
    of the interface at position [i], at that same position [i]. *)
Theorem getLocalIp_sound ifaces :
  _getLocalIp ifaces = "0.0.0.0"
  \/ exists i name addresses a,
       ifaces !! i = Some (name, addresses)
       /\ addresses !! i = Some a
       /\ na_family a = "IPv4" /\ na_internal a = false
       /\ _getLocalIp ifaces = na_address a.
Proof.
  destruct (getLocalIp_outer_found ifaces 0 _ eq_refl)
    as [?|(j & n & ad & a & Hj & Ha & Hu & Hr)]; [by left|].
  right. exists j, n, ad, a. cbn in Ha. unfold usable in Hu.
  apply andb_prop in Hu as [Hf Hi]. apply bool_decide_eq_true_1 in Hf.
  apply negb_true_iff in Hi. by repeat split.
Qed.

Lemma getLocalIp_outer_diagonal ifaces i :
  (forall j name addresses a,
     ifaces !! j = Some (name, addresses) ->
     addresses !! (i + j)%nat = Some a -> usable a = false) ->
  getLocalIp_outer ifaces i = "0.0.0.0".
Proof.
  revert i. induction ifaces as [|[name addresses] rest IH]; intros i Hd;
    [done|].
  cbn [getLocalIp_outer]. rewrite getLocalIp_inner_eq.
  assert (getLocalIp_outer rest (S i) = "0.0.0.0") as Hrest.
  { apply IH. intros j n ad a Hj Ha. apply (Hd (S j) n ad a Hj).
    by rewrite <- Nat.add_succ_comm. }
  destruct (addresses !! i) as [a|] eqn:Ha; [|done].
  rewrite (Hd 0%nat name addresses a eq_refl); [done|].
  by rewrite Nat.add_0_r.
Qed.

(** X17. Only the entry at position [i] of the interface at position [i]
    is ever looked at: when none of these is an external IPv4 address the
    answer is [0.0.0.0], whatever the other entries are. *)
Theorem getLocalIp_diagonal_only ifaces :
  (forall i name addresses a,
     ifaces !! i = Some (name, addresses) ->
     addresses !! i = Some a -> usable a = false) ->
  _getLocalIp ifaces = "0.0.0.0".
Proof. intros Hd. apply getLocalIp_outer_diagonal. exact Hd. Qed.

Lemma getLocalIp_diagonal_only_witness :
  _getLocalIp demo_interfaces = "0.0.0.0"
  /\ usable (mkNetAddress "192.168.0.7" "IPv4" false) = true.
Proof.
  split; [|reflexivity].
  apply (getLocalIp_diagonal_only demo_interfaces).
  intros [|[|i]] name addresses a Hi Ha; cbn in Hi; simplify_eq; cbn in Ha;
    by simplify_eq.
Defined.

(** The same host with its interfaces listed the other way round. *)
Lemma getLocalIp_order_example :
  _getLocalIp demo_interfaces_found = "192.168.0.7".
Proof. reflexivity. Qed.

(** ** The HTTP server, the beacon and the event bridge together *)

(** X18. After a start of the HTTP server that succeeded, the server is
    marked running, a fresh event bridge is in place, the registry is as
    it was and the promise carries the requested port.  What the next
    broadcast step does then hangs on the login body alone: with one at
    hand the step returns, and a datagram goes out to exactly those
    broadcast addresses whose send succeeds, each naming the port the
    server is bound to; with none the step throws and nothing is sent or
    logged. *)
Theorem startHttpServer_then_beacon N W x httpPort bound :
  listen_outcome N
    (match server (kit x) with Some srv => srv | None => mkServer None end)
    (chosen_port W httpPort) = inr bound ->
  let started := startHttpServer N W x httpPort in
  started.1 = Resolved (_getLocalIp (interfaces N), chosen_port W httpPort)
  /\ httpServerRunning (kit started.2) = true
  /\ projectEvents started.2 = Some ProjectEvents_new
  /\ projects (kit started.2) = projects (kit x)
  /\ (forall lb, loginBody W = Some lb ->
      exists message,
        info_port message = bound
        /\ info_serverId message = clientId lb
        /\ (_sendBeacon W (kit started.2)).1 = (Returns, kit started.2)
        /\ forall a p m,
             UdpSend a p m ∈ (_sendBeacon W (kit started.2)).2 <->
             a ∈ broadcastAddresses W /\ udp_send W a = SendOk
             /\ p = beacon_send_port (config W) /\ m = message)
  /\ (loginBody W = None ->
      _sendBeacon W (kit started.2) = (Throws, kit started.2, [])).
Proof.
  intros Hlisten. unfold startHttpServer. rewrite Hlisten.
  cbn [fst snd kit projectEvents]. repeat (split; [done|]).
  set (s' := set_server _ _ _).
  assert (server_port s' = Some bound) as Hport by reflexivity.
  split.
  - intros lb Hlb. exists (beacon_message W bound lb).
    rewrite (sendBeacon_bound W s' bound lb Hport Hlb). cbn [fst snd].
    split; [done|]. split; [done|]. split; [done|].
    intros a p m. rewrite elem_of_concat_map. split.
    + intros (a' & Ha' & (-> & ? & ? & ?)%sendBroadcast_datagram). done.
    + intros (Ha & Hok & -> & ->). exists a. split; [done|].
      by apply sendBroadcast_datagram.
  - intros Hnone. unfold _sendBeacon, _getServerInfo.
    rewrite Hport, Hnone. reflexivity.
Qed.

Lemma startHttpServer_then_beacon_witness :
  (startHttpServer demoNet demoWorld Session_new (Some 0)).1
  = Resolved ("0.0.0.0", 8001)
  /\ sent_to
       (_sendBeacon demoWorld
          (kit (startHttpServer demoNet demoWorld Session_new (Some 0)).2)).2
     = ["192.168.0.255"; "10.0.0.255"].
Proof.
  pose proof (startHttpServer_then_beacon demoNet demoWorld Session_new
                (Some 0) 8001 eq_refl) as H.
  split; [exact (proj1 H)|reflexivity].
Defined.

(** The same start in a world without login body: the step that follows
    throws before anything is sent. *)
Lemma startHttpServer_no_login_example :
  (_sendBeacon demoWorld_anonymous
     (kit (startHttpServer demoNet demoWorld_anonymous Session_new None).2)).1.1
  = Throws
  /\ (_sendBeacon demoWorld_anonymous
        (kit (startHttpServer demoNet demoWorld_anonymous Session_new None).2)).2
     = [].
Proof. by vm_compute. Qed.

Lemma sendBeacon_unbound W s :
  server_port s = None ->
  (_sendBeacon W s).1.1 = Throws
  /\ _interval (_sendBeacon W s).1.2 = None
  /\ forall a port m, UdpSend a port m ∉ (_sendBeacon W s).2.
Proof.
  intros Hport. unfold _sendBeacon, stopBeaconTransmitter. rewrite Hport.
  destruct (_interval s) as [h|] eqn:Hi.
  - unfold _getServerInfo, server_port. cbn [server].
    fold (server_port s). rewrite Hport. split; [done|]. split; [done|].
    intros a port m Hin. cbn in Hin.
    repeat (apply elem_of_cons in Hin as [?|Hin]; [done|]).
    by apply elem_of_nil in Hin.
  - unfold _getServerInfo. rewrite Hport. split; [done|]. split; [done|].
    intros a port m Hin. cbn in Hin.
    repeat (apply elem_of_cons in Hin as [?|Hin]; [done|]).
    by apply elem_of_nil in Hin.
Qed.

(** X19. A start of the HTTP server that fails is rejected with the
    error of the listener; the object is not marked running, no event
    bridge is created, and the server object that was created stays behind
    unbound, so that a broadcast step that follows sends nothing. *)
Theorem startHttpServer_failure N W x httpPort e :
  server (kit x) = None ->
  listen_outcome N (mkServer None) (chosen_port W httpPort) = inl e ->
  let started := startHttpServer N W x httpPort in
  started.1 = Rejected e
  /\ httpServerRunning (kit started.2) = httpServerRunning (kit x)
  /\ projectEvents started.2 = projectEvents x
  /\ server (kit started.2) = Some (mkServer None)
  /\ (_sendBeacon W (kit started.2)).1.1 = Throws
  /\ forall a port m, UdpSend a port m ∉ (_sendBeacon W (kit started.2)).2.
Proof.
  intros Hsrv Hlisten. unfold startHttpServer. rewrite Hsrv, Hlisten.
  cbn [fst snd kit projectEvents]. repeat (split; [done|]).
  set (s' := set_server _ _ _).
  destruct (sendBeacon_unbound W s' eq_refl) as (? & _ & ?). by split.
Qed.

Lemma startHttpServer_failure_witness :
  (startHttpServer demoNet demoWorld Session_new (Some 80)).1
  = Rejected "EACCES".
Proof.
  pose proof (startHttpServer_failure demoNet demoWorld Session_new
                (Some 80) "EACCES" eq_refl eq_refl) as H.
  exact (proj1 H).
Defined.

(** Without a server object [stopHttpServer] throws. *)
Lemma stopHttpServer_never_started N x :
  server (kit x) = None -> stopHttpServer N x = (Threw, x).
Proof. unfold stopHttpServer. by intros ->. Qed.

(** X20. After a stop of the HTTP server that succeeded the object is
    marked not running and the event bridge is still there; no port is
    bound any more, so the broadcast step that follows sends nothing and
    leaves the transmitter without timer. *)
Theorem stopHttpServer_then_beacon N W x srv :
  server (kit x) = Some srv ->
  close_outcome N srv = None ->
  let stopped := stopHttpServer N x in
  stopped.1 = Returned (Resolved tt)
  /\ httpServerRunning (kit stopped.2) = false
  /\ projectEvents stopped.2 = projectEvents x
  /\ projects (kit stopped.2) = projects (kit x)
  /\ (_sendBeacon W (kit stopped.2)).1.1 = Throws
  /\ _interval (_sendBeacon W (kit stopped.2)).1.2 = None
  /\ forall a port m, UdpSend a port m ∉ (_sendBeacon W (kit stopped.2)).2.
Proof.
  intros Hsrv Hclose. unfold stopHttpServer. rewrite Hsrv, Hclose.
  cbn [fst snd kit projectEvents]. repeat (split; [done|]).
  set (s' := set_server _ _ _).
  apply (sendBeacon_unbound W s' eq_refl).
Qed.

Lemma stopHttpServer_then_beacon_witness :
  (stopHttpServer demoNet
     (startHttpServer demoNet demoWorld Session_new None).2).1
  = Returned (Resolved tt).
Proof.
  pose proof (stopHttpServer_then_beacon demoNet demoWorld
                (startHttpServer demoNet demoWorld Session_new None).2
                (mkServer (Some 8001)) eq_refl eq_refl) as H.
  exact (proj1 H).
Defined.

(** X21. Start signals and the client list need the event bridge, and the
    bridge comes with the HTTP server: while the server was never started
    [startProject] for a registered project is rejected and [getClientList]
    throws; after a successful start the client list is empty,
    [startProject] resolves with the project's id and the bridge holds
    exactly that one signal, tagged with the id and the given client. *)
Theorem startProject_needs_server N W send_error x httpPort bound
    projectPath clientId projectId :
  getLocalProjectId W projectPath = Resolved projectId ->
  is_Some (projects (kit x) !! projectId) ->
  projectEvents x = None ->
  listen_outcome N
    (match server (kit x) with Some srv => srv | None => mkServer None end)
    (chosen_port W httpPort) = inr bound ->
  send_error projectId clientId = None ->
  startProject W send_error x projectPath clientId = (Rejected TypeError, x)
  /\ getClientList x = Threw
  /\ let x' := (startHttpServer N W x httpPort).2 in
     getClientList x' = Returned (Resolved [])
     /\ (startProject W send_error x' projectPath clientId).1
        = Resolved projectId
     /\ kit (startProject W send_error x' projectPath clientId).2 = kit x'
     /\ projectEvents (startProject W send_error x' projectPath clientId).2
        = Some (mkProjectEvents [] [(projectId, clientId)]).
Proof.
  intros Hid Hreg Hpe Hlisten Hsend. split; [|split].
  - unfold startProject. rewrite Hid, Hpe.
    by rewrite bool_decide_eq_true_2.
  - unfold getClientList. by rewrite Hpe.
  - unfold startHttpServer. rewrite Hlisten. cbn [snd]. split; [done|].
    unfold startProject. rewrite Hid. cbn [kit projectEvents projects set_server].
    rewrite bool_decide_eq_true_2 by done. cbn [negb]. by rewrite Hsend.
Qed.

Lemma startProject_needs_server_witness :
  startProject demoWorld (fun _ _ => None) (mkSession demoKit None)
               "/tmp/app" (Some "device-1")
  = (Rejected TypeError, mkSession demoKit None).
Proof.
  pose proof (startProject_needs_server demoNet demoWorld (fun _ _ => None)
                (mkSession demoKit None) None 8001 "/tmp/app"
                (Some "device-1") "P1" eq_refl ltac:(by eexists) eq_refl
                eq_refl eq_refl) as H.
  exact (proj1 H).
Defined.

(** An unregistered project gets no start signal. *)
Lemma startProject_unregistered W send_error x projectPath clientId projectId :
  getLocalProjectId W projectPath = Resolved projectId ->
  projects (kit x) !! projectId = None ->
  startProject W send_error x projectPath clientId
  = (Rejected (NoProjectWithId projectId), x).
Proof.
  intros Hid Hnone. unfold startProject. rewrite Hid.
  rewrite bool_decide_eq_false_2; [done|]. rewrite Hnone. by intros [? ?].
Qed.

(** ** Serving files *)

(** X22. A request whose canonical path lies within the project root is
    answered from the file system alone: a missing file and a directory
    are rejected with their messages, anything else is read, and the
    outcome is that of the read. *)
Theorem readProjectFile_serves_contained W s projectId project filePath :
  Path.isAbsolute (cwd W) = true ->
  projects s !! projectId = Some project ->
  let f := requested (path project) filePath in
  spec_outside_project W (path project) f = false ->
  readProjectFile W s projectId filePath
  = if negb (fs_exists W f)
    then (Rejected (filePath +:+ " doesn't exist."), [FsExists f])
    else if fs_isDirectory W f
    then (Rejected (f +:+ " is a directory"), [FsExists f; FsLstat f])
    else (match fs_readFile W f with
          | inl e => Rejected e
          | inr data => Resolved data
          end, [FsExists f; FsLstat f; FsReadFile f]).
Proof.
  intros Habs Hp f Hin. unfold readProjectFile. rewrite Hp.
  fold (requested (path project) filePath). fold f.
  by rewrite (guard_accepts_contained W (path project) f Habs Hin).
Qed.

Lemma readProjectFile_serves_contained_witness :
  readProjectFile demoWorld demoKit "P1" "www/index.html"
  = (Resolved "data of /tmp/app/www/index.html",
     [FsExists "/tmp/app/www/index.html"; FsLstat "/tmp/app/www/index.html";
      FsReadFile "/tmp/app/www/index.html"]).
Proof.
  apply (readProjectFile_serves_contained demoWorld demoKit "P1" demo_app
           "www/index.html"); reflexivity.
Defined.

(** X23. What the guard does guarantee: every call to the file system is
    about the one requested path, and the text of its resolved form begins
    with the text of the resolved project root. *)
Theorem readProjectFile_fs_calls_prefixed W s projectId filePath c :
  c ∈ (readProjectFile W s projectId filePath).2 ->
  exists project,
    projects s !! projectId = Some project
    /\ fs_call_path c = requested (path project) filePath
    /\ JS.startsWith (Path.resolve (cwd W) [path project])
                     (Path.resolve (cwd W) [fs_call_path c]) = true.
Proof.
  unfold readProjectFile.
  destruct (projects s !! projectId) as [project|];
    [|by intros ?%elem_of_nil].
  fold (requested (path project) filePath).
  destruct (outside_project W _ _) eqn:Hout; [by intros ?%elem_of_nil|].
  rewrite outside_project_prefix in Hout. apply negb_false_iff in Hout.
  intros Hc. exists project. split; [done|].
  assert (fs_call_path c = requested (path project) filePath) as ->;
    [|by split].
  destruct (fs_exists W _); cbn [negb] in Hc.
  - destruct (fs_isDirectory W _); cbn [snd] in Hc;
      repeat (apply elem_of_cons in Hc as [->|Hc]; [done|]);
      by apply elem_of_nil in Hc.
  - cbn [snd] in Hc. apply elem_of_cons in Hc as [->|Hc]; [done|].
    by apply elem_of_nil in Hc.
Qed.

Lemma readProjectFile_fs_calls_prefixed_witness :
  exists project,
    projects demoKit !! "P1" = Some project
    /\ fs_call_path (FsReadFile "/tmp/app2/secret")
       = requested (path project) "../app2/secret"
    /\ JS.startsWith (Path.resolve (cwd demoWorld) [path project])
         (Path.resolve (cwd demoWorld)
            [fs_call_path (FsReadFile "/tmp/app2/secret")]) = true.
Proof.
  apply (readProjectFile_fs_calls_prefixed demoWorld demoKit "P1"
           "../app2/secret" (FsReadFile "/tmp/app2/secret")).
  vm_compute. right. right. left.
Defined.

(** X24. Filtering a file map twice is filtering it once. *)
Theorem filter_files_idempotent {V} (files : gmap string V) :
  filter_files (filter_files files) = filter_files files.
Proof.
  apply map_eq. intros k. rewrite !filter_files_lookup.
  by destruct (fileFilter k).
Qed.

(** ** [getProjects] *)

Lemma getProjects_all_resolved {Info} (g : string -> promise Info)
    (l : list (string * Project)) :
  (forall kv, kv ∈ l -> exists i, g (path kv.2) = Resolved i) ->
  exists infos,
    map (fun kv : string * Project => g (path kv.2)) l = Resolved <$> infos
    /\ length infos = length l
    /\ forall i, i ∈ infos <-> exists kv, kv ∈ l /\ g (path kv.2) = Resolved i.
Proof.
  induction l as [|kv l IH]; intros Hall.
  { exists []. split; [done|]. split; [done|]. intros i. split.
    - by intros ?%elem_of_nil.
    - intros (kv & ?%elem_of_nil & _). done. }
  destruct IH as (infos & Hmap & Hlen & Hmem).
  { intros kv' Hin. apply Hall. by right. }
  destruct (Hall kv) as [i Hi]; [by left|].
  exists (i :: infos). cbn [map]. rewrite Hi, Hmap. split; [done|].
  split; [by cbn; rewrite Hlen|]. intros j. rewrite elem_of_cons, Hmem. split.
  - intros [->|(kv' & Hin & Hj)]; [exists kv|exists kv'];
      (split; [by (left || right)|done]).
  - intros (kv' & Hin & Hj). apply elem_of_cons in Hin as [->|Hin].
    + left. congruence.
    + right. by exists kv'.
Qed.

(** X25. When the identity collaborator answers for every registered
    path, [getProjects] resolves with one answer per registry entry: as
    many answers as entries, and exactly the answers given for the
    registered paths. *)
Theorem getProjects_one_per_project {Info} (g : string -> promise Info) s :
  (forall projectId p, projects s !! projectId = Some p ->
                       exists i, g (path p) = Resolved i) ->
  exists infos,
    getProjects g s = Resolved infos
    /\ length infos = size (projects s)
    /\ forall i, i ∈ infos <->
         exists projectId p,
           projects s !! projectId = Some p /\ g (path p) = Resolved i.
Proof.
  intros Hall.
  destruct (getProjects_all_resolved g (map_to_list (projects s)))
    as (infos & Hmap & Hlen & Hmem).
  { intros [k p] Hin%elem_of_map_to_list. by apply (Hall k). }
  exists infos. unfold getProjects. rewrite Hmap, Q_all_fmap_Resolved.
  split; [done|]. split; [by rewrite Hlen, length_map_to_list|].
  intros i. rewrite Hmem. split.
  - intros ([k p] & Hin%elem_of_map_to_list & Hi). by exists k, p.
  - intros (k & p & Hp & Hi). exists (k, p). split; [|done].
    by apply elem_of_map_to_list.
Qed.

Lemma getProjects_one_per_project_witness :
  exists infos,
    getProjects (fun p => Resolved ("info of " +:+ p)) demoKit_two
    = Resolved infos
    /\ length infos = size (projects demoKit_two)
    /\ forall i, i ∈ infos <->
         exists projectId p,
           projects demoKit_two !! projectId = Some p
           /\ (fun p => Resolved ("info of " +:+ p)) (path p) = Resolved i.
Proof.
  apply (getProjects_one_per_project
           (fun p => Resolved ("info of " +:+ p)) demoKit_two).
  intros projectId p _. by eexists.
Defined.

(** One failing answer rejects the whole list. *)
Lemma getProjects_rejected_example :
  getProjects (fun p => if bool_decide (p = "/tmp/lib")
                        then Rejected "no metadata"
                        else Resolved ("info of " +:+ p)) demoKit_two
  = Rejected "no metadata".
Proof. by vm_compute. Qed.

(** ** Reconciliation, when every operation succeeds *)

Lemma run_ops_app W s (a b : list registry_op) :
  run_ops W s (a ++ b)
  = ((run_ops W s a).1 ++ (run_ops W (run_ops W s a).2 b).1,
     (run_ops W (run_ops W s a).2 b).2).
Proof.
  revert s. induction a as [|o a IH]; intros s.
  { cbn. by destruct (run_ops W s b). }
  cbn [app run_ops]. destruct (run_op W s o) as [r s1]. rewrite IH.
  by destruct (run_ops W s1 a).
Qed.

Lemma set_projects_twice m1 m2 s :
  set_projects m2 (set_projects m1 s) = set_projects m2 s.
Proof. done. Qed.

(** The registrations of a batch, one after the other. *)
Lemma run_adds W (l : list string) :
  forall s0,
  isWatching s0 = false ->
  (forall p, p ∈ l ->
     exists projectId, getLocalProjectId W p = Resolved projectId
                       /\ fs_exists W (Path.join [p; "www"]) = true) ->
  exists ids m1,
    run_ops W s0 (map OpAdd l) = (Resolved <$> ids, set_projects m1 s0)
    /\ (forall k q, projects s0 !! k = Some q -> m1 !! k = Some q)
    /\ (forall k q, m1 !! k = Some q ->
          projects s0 !! k = Some q
          \/ (path q ∈ l /\ getLocalProjectId W (path q) = Resolved k))
    /\ (forall p k, p ∈ l -> getLocalProjectId W p = Resolved k ->
          is_Some (m1 !! k)).
Proof.
  induction l as [|p l IH]; intros s0 Hflag Hl.
  { exists [], (projects s0). cbn. rewrite set_projects_same.
    split; [done|]. split; [done|]. split; [by left|].
    by intros p k ?%elem_of_nil. }
  destruct (Hl p) as (i & Hid & Hwww); [by left|].
  assert (exists m0,
            addProject W s0 p = (Resolved i, set_projects m0 s0)
            /\ (forall k q, projects s0 !! k = Some q -> m0 !! k = Some q)
            /\ (forall k q, m0 !! k = Some q ->
                  projects s0 !! k = Some q
                  \/ (path q = p /\ getLocalProjectId W (path q) = Resolved k))
            /\ is_Some (m0 !! i)) as (m0 & Hadd & Hkeep & Hnew & Hi).
  { unfold addProject. rewrite Hid, Hwww. cbn [negb].
    case_bool_decide as Hreg.
    - exists (projects s0). rewrite set_projects_same.
      split; [done|]. split; [done|]. split; [by left|done].
    - unfold isWatching in Hflag. unfold isWatching. rewrite Hflag.
      eexists. split; [done|]. split; [|split].
      + intros k q Hq. rewrite lookup_insert_ne; [done|].
        intros <-. apply Hreg. by eexists.
      + intros k q. rewrite lookup_insert_Some.
        intros [[<- <-]|[_ Hq]]; [right|by left]. done.
      + rewrite lookup_insert_eq. by eexists. }
  destruct (IH (set_projects m0 s0)) as (ids & m1 & Hrun & Hkeep1 & Hnew1 & Hall1).
  { done. }
  { intros p' Hp'. apply Hl. by right. }
  exists (i :: ids), m1. cbn [map run_ops run_op]. rewrite Hadd, Hrun.
  rewrite set_projects_twice. split; [done|]. split; [|split].
  - intros k q Hq. by apply Hkeep1, Hkeep.
  - intros k q Hq. destruct (Hnew1 k q Hq) as [Hq0|[Hin Hk]].
    + destruct (Hnew k q Hq0) as [?|[<- ?]]; [by left|right].
      split; [by left|done].
    + right. split; [by right|done].
  - intros p' k Hp' Hk. apply elem_of_cons in Hp' as [->|Hp'].
    + assert (k = i) as -> by congruence.
      destruct Hi as [q Hq]. exists q. by apply Hkeep1.
    + by apply (Hall1 p' k).
Qed.

Lemma foldl_delete_lookup (l : list (string * Project))
    (m : gmap string Project) (k : string) :
  foldl (fun acc kv => delete kv.1 acc) m l !! k
  = if bool_decide (k ∈ l.*1) then None else m !! k.
Proof.
  revert m. induction l as [|[k0 v0] l IH]; intros m; [done|].
  cbn [foldl]. rewrite IH, fmap_cons. cbn [fst].
  destruct (decide (k = k0)) as [->|Hne].
  - rewrite lookup_delete_eq.
    rewrite (bool_decide_eq_true_2 (k0 ∈ k0 :: l.*1)) by (by left).
    by case_bool_decide.
  - rewrite lookup_delete_ne by done.
    erewrite (bool_decide_ext (k ∈ k0 :: l.*1)); [done|].
    rewrite elem_of_cons. split; [by intros [?|?]|by right].
Qed.

(** The unregistrations of a batch, one after the other. *)
Lemma run_removes W (l : list (string * Project)) :
  NoDup l.*1 ->
  forall s0,
  (forall k v, (k, v) ∈ l ->
     projects s0 !! k = Some v
     /\ getLocalProjectId W (path v) = Resolved k
     /\ watch_stop W (fileWatcher v) = None) ->
  run_ops W s0 (map (fun kv => OpRemove (path kv.2)) l)
  = (Resolved <$> l.*1,
     set_projects (foldl (fun acc kv => delete kv.1 acc) (projects s0) l) s0).
Proof.
  induction l as [|[k0 v0] l IH]; intros Hnd s0 Hl.
  { cbn. by rewrite set_projects_same. }
  rewrite fmap_cons in Hnd. apply NoDup_cons in Hnd as [Hk0 Hnd].
  cbn [fst] in Hk0.
  destruct (Hl k0 v0) as (Hv0 & Hid & Hstop); [by left|].
  cbn [map run_ops run_op snd]. unfold removeProject at 1, FileWatcher_stop.
  rewrite Hid, Hv0, Hstop. rewrite IH; [done|done|].
  intros k v Hin. destruct (Hl k v) as (Hv & ? & ?); [by right|].
  split; [|done]. cbn [projects set_projects].
  rewrite lookup_delete_ne; [done|]. intros <-. apply Hk0.
  apply list_elem_of_fmap. by exists (k0, v).
Qed.

Lemma getProjects_ids_all W pathList :
  (forall p, p ∈ pathList ->
     exists projectId, getLocalProjectId W p = Resolved projectId) ->
  exists resolved, getProjects_ids W pathList = Resolved resolved.
Proof.
  intros Hall. unfold getProjects_ids.
  assert (exists resolved,
            map (fun p => promise_map (fun projectId => (p, projectId))
                                      (getLocalProjectId W p)) pathList
            = Resolved <$> resolved) as [resolved ->].
  { induction pathList as [|p pl IH]; [by exists []|].
    destruct IH as [resolved Hr]; [intros q Hq; apply Hall; by right|].
    destruct (Hall p) as [i Hi]; [by left|].
    exists ((p, i) :: resolved). cbn [map]. by rewrite Hi, Hr. }
  exists resolved. apply Q_all_fmap_Resolved.
Qed.

Lemma NoDup_fst_filter {A} (f : string * A -> bool) (l : list (string * A)) :
  NoDup l.*1 -> NoDup (List.filter f l).*1.
Proof.
  induction l as [|[k v] l IH]; intros Hnd; [done|].
  rewrite fmap_cons in Hnd. apply NoDup_cons in Hnd as [Hk Hnd].
  cbn [List.filter]. destruct (f (k, v)); [|by apply IH].
  rewrite fmap_cons. apply NoDup_cons. split; [|by apply IH].
  intros ([k' v'] & Hkk & Hin%elem_of_filter_bool)%list_elem_of_fmap.
  cbn in Hkk. subst k'. apply Hk. apply list_elem_of_fmap.
  exists (k, v'). split; [done|]. by destruct Hin.
Qed.

(** X26. Reconciliation does what its description says when nothing goes
    wrong.  Let the registry be as the object's methods leave it, the flag
    lowered, every listed path resolve to an id (different paths to
    different ids) and have a [www] directory unless it is registered
    already, and every watcher of an entry whose path is not listed stop.
    Then [setProjects] resolves; afterwards every listed path is registered
    under its id, every entry carries a listed path, the entries that were
    there and are listed are untouched, and those that are not listed are
    gone. *)
Theorem setProjects_reconciles W s pathList :
  registry_consistent W s ->
  isWatching s = false ->
  (forall p, p ∈ pathList ->
     exists projectId,
       getLocalProjectId W p = Resolved projectId
       /\ (projects s !! projectId = None ->
           fs_exists W (Path.join [p; "www"]) = true)) ->
  (forall projectId q, projects s !! projectId = Some q ->
     path q ∉ pathList -> watch_stop W (fileWatcher q) = None) ->
  (forall p q projectId,
     getLocalProjectId W p = Resolved projectId ->
     getLocalProjectId W q = Resolved projectId -> p = q) ->
  exists ids s',
    setProjects W s pathList = (Resolved ids, s')
    /\ (forall p, p ∈ pathList ->
          exists projectId q,
            getLocalProjectId W p = Resolved projectId
            /\ projects s' !! projectId = Some q /\ path q = p)
    /\ (forall projectId q, projects s' !! projectId = Some q ->
          path q ∈ pathList)
    /\ (forall projectId q, projects s !! projectId = Some q ->
          path q ∈ pathList -> projects s' !! projectId = Some q)
    /\ (forall projectId q, projects s !! projectId = Some q ->
          path q ∉ pathList -> projects s' !! projectId = None).
Proof.
  intros Hcons Hflag Hres Hstop Hinj.
  destruct (getProjects_ids_all W pathList) as [resolved Hids].
  { intros p Hp. destruct (Hres p Hp) as (i & Hi & _). by exists i. }
  pose proof (getProjects_ids_resolved W pathList resolved Hids) as Hmem.
  set (fresh := List.filter
                  (fun pi : string * string =>
                     bool_decide (projects s !! pi.2 = None)) resolved).
  set (gone := List.filter
                 (fun kv : string * Project =>
                    bool_decide (path kv.2 ∉ pathList))
                 (map_to_list (projects s))).
  assert (setProjects_ops s pathList resolved
          = map OpAdd fresh.*1
            ++ map (fun kv => OpRemove (path kv.2)) gone) as Hops.
  { unfold setProjects_ops. fold fresh. fold gone. f_equal.
    by rewrite <- list_fmap_compose. }
  assert (forall p, p ∈ fresh.*1 <->
            p ∈ pathList
            /\ exists i, getLocalProjectId W p = Resolved i
                         /\ projects s !! i = None) as Hfresh.
  { intros p. rewrite list_elem_of_fmap. split.
    - intros ([p' i] & -> & [Hin Hnone]%elem_of_filter_bool).
      apply Hmem in Hin as [? ?]. apply bool_decide_eq_true_1 in Hnone.
      split; [done|]. by exists i.
    - intros (Hp & i & Hi & Hnone). exists (p, i). split; [done|].
      apply elem_of_filter_bool. split; [by apply Hmem|].
      by apply bool_decide_eq_true_2. }
  assert (forall k, k ∈ gone.*1 <->
            exists v, projects s !! k = Some v /\ path v ∉ pathList) as Hgone.
  { intros k. rewrite list_elem_of_fmap. split.
    - intros ([k' v] & -> & [Hin Hout]%elem_of_filter_bool).
      apply elem_of_map_to_list in Hin. apply bool_decide_eq_true_1 in Hout.
      by exists v.
    - intros (v & Hv & Hout). exists (k, v). split; [done|].
      apply elem_of_filter_bool. split; [by apply elem_of_map_to_list|].
      by apply bool_decide_eq_true_2. }
  destruct (run_adds W fresh.*1 s Hflag)
    as (ids & m1 & Hrun & Hkeep & Hnew & Hall).
  { intros p (Hp & i & Hi & Hnone)%Hfresh.
    destruct (Hres p Hp) as (i' & Hi' & Hwww). exists i. split; [done|].
    apply Hwww. congruence. }
  assert (run_ops W (set_projects m1 s)
            (map (fun kv : string * Project => OpRemove (path kv.2)) gone)
          = (Resolved <$> gone.*1,
             set_projects
               (foldl (fun acc kv => delete kv.1 acc) m1 gone) s)) as Hrem.
  { rewrite run_removes; [done| |].
    - apply NoDup_fst_filter, NoDup_fst_map_to_list.
    - intros k v [Hin Hout]%elem_of_filter_bool.
      apply elem_of_map_to_list in Hin. apply bool_decide_eq_true_1 in Hout.
      split; [by apply Hkeep|]. split; [by apply (Hcons k v)|].
      by apply (Hstop k v). }
  exists (ids ++ gone.*1),
    (set_projects (foldl (fun acc kv => delete kv.1 acc) m1 gone) s).
  split.
  { unfold setProjects. rewrite Hids, Hops, run_ops_app, Hrun.
    cbn [fst snd]. rewrite Hrem. cbn [fst snd].
    by rewrite <- fmap_app, Q_all_fmap_Resolved. }
  cbn [projects set_projects].
  assert (forall k q, projects s !! k = Some q -> path q ∈ pathList ->
            k ∉ gone.*1) as Hstay.
  { intros k q Hq Hin (v & Hv & Hout)%Hgone. by simplify_eq. }
  split; [|split; [|split]].
  - intros p Hp. destruct (Hres p Hp) as (i & Hi & _).
    destruct (projects s !! i) as [q0|] eqn:Hq0.
    + destruct (Hcons i q0 Hq0) as (Hi0 & _).
      assert (path q0 = p) as Hpath by (by apply (Hinj _ _ i)).
      exists i, q0. split; [done|]. split; [|done].
      rewrite foldl_delete_lookup, bool_decide_eq_false_2.
      * by apply Hkeep.
      * apply (Hstay i q0 Hq0). by rewrite Hpath.
    + destruct (Hall p i) as [q Hq]; [apply Hfresh; by eauto|done|].
      exists i, q. split; [done|].
      rewrite foldl_delete_lookup, bool_decide_eq_false_2.
      * split; [done|].
        destruct (Hnew i q Hq) as [Hold|[_ Hiq]]; [congruence|].
        by apply (Hinj _ _ i).
      * intros (v & Hv & _)%Hgone. congruence.
  - intros k q. rewrite foldl_delete_lookup.
    case_bool_decide as Hk; [done|]. intros Hq.
    destruct (Hnew k q Hq) as [Hold|[Hin _]].
    + destruct (decide (path q ∈ pathList)) as [?|Hout]; [done|].
      exfalso. apply Hk, Hgone. by exists q.
    + by apply Hfresh in Hin as [? _].
  - intros k q Hq Hin. rewrite foldl_delete_lookup.
    rewrite bool_decide_eq_false_2 by (by apply (Hstay k q)).
    by apply Hkeep.
  - intros k q Hq Hout. rewrite foldl_delete_lookup.
    rewrite bool_decide_eq_true_2; [done|]. apply Hgone. by exists q.
Qed.

Lemma demo_id_injective (p q projectId : string) :
  getLocalProjectId demoWorld p = Resolved projectId ->
  getLocalProjectId demoWorld q = Resolved projectId -> p = q.
Proof.
  cbn [getLocalProjectId demoWorld demoWorld_on]. unfold demo_id.
  repeat case_bool_decide; intros Hp Hq; simplify_eq; try done.
  all: try (by injection Hq).
  all: try (by injection Hp).
Qed.

Lemma setProjects_reconciles_witness :
  exists ids s',
    setProjects demoWorld (addProject demoWorld Localkit_new "/tmp/app").2
                ["/tmp/lib"]
    = (Resolved ids, s')
    /\ (forall p, p ∈ ["/tmp/lib"] ->
          exists projectId q,
            getLocalProjectId demoWorld p = Resolved projectId
            /\ projects s' !! projectId = Some q /\ path q = p)
    /\ (forall projectId q, projects s' !! projectId = Some q ->
          path q ∈ ["/tmp/lib"])
    /\ (forall projectId q,
          projects (addProject demoWorld Localkit_new "/tmp/app").2
            !! projectId = Some q ->
          path q ∈ ["/tmp/lib"] -> projects s' !! projectId = Some q)
    /\ (forall projectId q,
          projects (addProject demoWorld Localkit_new "/tmp/app").2
            !! projectId = Some q ->
          path q ∉ ["/tmp/lib"] -> projects s' !! projectId = None).
Proof.
  apply (setProjects_reconciles demoWorld
           (addProject demoWorld Localkit_new "/tmp/app").2 ["/tmp/lib"]).
  - exact demo_added_consistent.
  - reflexivity.
  - intros p ->%list_elem_of_singleton. exists "P2". by split.
  - reflexivity.
  - exact demo_id_injective.
Defined.

(** The same call, computed. *)
Lemma reconcile_demo_example :
  (setProjects demoWorld (addProject demoWorld Localkit_new "/tmp/app").2
               ["/tmp/lib"]).1 = Resolved ["P2"; "P1"]
  /\ Object_keys
       (projects
          (setProjects demoWorld
             (addProject demoWorld Localkit_new "/tmp/app").2
             ["/tmp/lib"]).2) = ["P2"].
Proof. by vm_compute. Qed.

Lemma filter_bool_all {A} (f : A -> bool) (l : list A) :
  (forall x, x ∈ l -> f x = true) -> List.filter f l = l.
Proof.
  induction l as [|a l IH]; intros Hall; [done|]. cbn [List.filter].
  rewrite (Hall a) by (by left). f_equal. apply IH. intros x Hx.
  apply Hall. by right.
Qed.

(** X27. Reconciling against the empty list unregisters everything: in a
    registry as the object's methods leave it, and with watchers that stop,
    [setProjects] of no path at all resolves with the ids of all entries
    and leaves the registry empty, the rest of the object as it was. *)
Theorem setProjects_nil_empties W s :
  registry_consistent W s ->
  (forall projectId q, projects s !! projectId = Some q ->
                       watch_stop W (fileWatcher q) = None) ->
  setProjects W s [] = (Resolved (Object_keys (projects s)), set_projects ∅ s).
Proof.
  intros Hcons Hstop. unfold setProjects, setProjects_ops.
  change (getProjects_ids W []) with (@Resolved (list (string * string)) []).
  cbn [List.filter map app].
  rewrite filter_bool_all.
  2:{ intros kv _. apply bool_decide_eq_true_2. apply not_elem_of_nil. }
  rewrite run_removes.
  - rewrite Q_all_fmap_Resolved. unfold Object_keys. do 2 f_equal.
    apply map_eq. intros k. rewrite foldl_delete_lookup, lookup_empty.
    case_bool_decide as Hk; [done|].
    destruct (projects s !! k) as [v|] eqn:Hv; [|done].
    exfalso. apply Hk, list_elem_of_fmap. exists (k, v).
    split; [done|]. by apply elem_of_map_to_list.
  - apply NoDup_fst_map_to_list.
  - intros k v Hin%elem_of_map_to_list. split; [done|].
    split; [by apply (Hcons k v)|by apply (Hstop k v)].
Qed.

Lemma setProjects_nil_empties_witness :
  setProjects demoWorld demoKit_two []
  = (Resolved (Object_keys (projects demoKit_two)), set_projects ∅ demoKit_two).
Proof.
  apply (setProjects_nil_empties demoWorld demoKit_two).
  - exact demoKit_two_consistent.
  - reflexivity.
Defined.

(** X28. Stop all, then start all: when the running watchers stop and
    every watcher starts, [startWatch] after [stopWatch] resolves with the
    [www] directory of every registered project, and afterwards every
    watcher runs on that directory. *)
Theorem stopWatch_then_startWatch W s :
  (forall projectId p, projects s !! projectId = Some p ->
     running (fileWatcher p) = true -> watch_stop W (fileWatcher p) = None) ->
  (forall fw dir, watch_run W fw dir = None) ->
  exists paths s',
    startWatch W (stopWatch W s).2 = (Resolved paths, s')
    /\ (forall d, d ∈ paths <->
          exists projectId p,
            projects s !! projectId = Some p
            /\ d = Path.join [path p; "www"])
    /\ length paths = size (projects s)
    /\ (forall projectId p, projects s !! projectId = Some p ->
          exists p', projects s' !! projectId = Some p'
                     /\ path p' = path p
                     /\ running (fileWatcher p') = true
                     /\ watched (fileWatcher p')
                        = Some (Path.join [path p; "www"])).
Proof.
  intros Hstop Hrun.
  assert (projects (stopWatch W s).2 = stop_one W <$> projects s) as Hps.
  { rewrite stopWatch_eq. by destruct (Q_all _). }
  assert (forall k p, projects s !! k = Some p ->
            attaches W (stop_one W p) = true
            /\ path (stop_one W p) = path p) as Hatt.
  { intros k p Hp. unfold attaches, stop_one, stops, FileWatcher_isRunning.
    rewrite Hrun. destruct (running (fileWatcher p)) eqn:Hr.
    - rewrite (Hstop k p Hp Hr). by rewrite bool_decide_eq_true_2.
    - cbn. by rewrite Hr. }
  rewrite startWatch_eq, Hps. eexists _, _. split; [done|].
  split; [|split].
  - intros d. rewrite list_elem_of_omap. split.
    + intros (p' & [k Hk]%elem_of_registry_values & Hd).
      apply lookup_fmap_Some in Hk as (p & <- & Hp).
      destruct (Hatt k p Hp) as [Ha Hpath]. unfold attached_dir in Hd.
      rewrite Ha, Hpath in Hd. exists k, p. by simplify_eq.
    + intros (k & p & Hp & ->). exists (stop_one W p).
      destruct (Hatt k p Hp) as [Ha Hpath]. split.
      * apply elem_of_registry_values. exists k.
        by rewrite lookup_fmap, Hp.
      * unfold attached_dir. by rewrite Ha, Hpath.
  - rewrite <- length_map_to_list.
    assert (forall l : list (string * Project),
              (forall kv, kv ∈ l -> attaches W kv.2 = true) ->
              length (omap (attached_dir W) l.*2) = length l) as Hlen.
    { induction l as [|kv l IH]; intros Hl; [done|].
      rewrite fmap_cons. cbn [omap list_omap]. unfold attached_dir at 1.
      rewrite (Hl kv) by (by left). cbn. f_equal. apply IH.
      intros kv' Hkv'. apply Hl. by right. }
    rewrite Hlen.
    + rewrite !length_map_to_list. apply map_size_fmap.
    + intros [k p'] Hin%elem_of_map_to_list.
      apply lookup_fmap_Some in Hin as (p & <- & Hp).
      by destruct (Hatt k p Hp).
  - intros k p Hp. destruct (Hatt k p Hp) as [Ha Hpath].
    exists (start_one W (stop_one W p)).
    cbn [projects set_isWatching set_projects].
    rewrite !lookup_fmap, Hp. split; [done|].
    unfold start_one. rewrite Ha. cbn. by rewrite Hpath.
Qed.

Lemma stopWatch_then_startWatch_witness :
  exists paths s',
    startWatch demoWorld_calm (stopWatch demoWorld_calm demoKit_two).2
    = (Resolved paths, s')
    /\ (forall d, d ∈ paths <->
          exists projectId p,
            projects demoKit_two !! projectId = Some p
            /\ d = Path.join [path p; "www"])
    /\ length paths = size (projects demoKit_two)
    /\ (forall projectId p, projects demoKit_two !! projectId = Some p ->
          exists p', projects s' !! projectId = Some p'
                     /\ path p' = path p
                     /\ running (fileWatcher p') = true
                     /\ watched (fileWatcher p')
                        = Some (Path.join [path p; "www"])).
Proof.
  apply (stopWatch_then_startWatch demoWorld_calm demoKit_two);
    [reflexivity|by intros].
Defined.
